(** * Verification pipeline and scoring engine of the test platform

    A shallow embedding of the request handlers of the server
    ([POST /api/auth/send-code], [POST /api/auth/verify-code-step1],
    [POST /api/auth/complete-registration], [POST /api/results]) and the
    properties of the specification that concern them; then of the code
    around them: signing in, the Telegram bot that delivers the codes and
    replays notifications, the creation and deletion of tests, the reading
    of results and the parser of imported question files.

    Conventions of the embedding.
    - The JSON collections ([verifications.json], [users.json]) are lists of
      records, in file order.  [readDataFile] followed by [writeDataFile]
      is explicit state passing: a handler takes the collection and returns
      the collection it writes back.
    - [Array.prototype.find] followed by an assignment to a field of the
      object found is [list_find] followed by an update at the index found.
    - Sources of non-determinism are explicit arguments of the handlers:
      the value of [Math.random()], the identifiers drawn by [uuidv4()], the
      salt of [bcrypt.hashSync] and the clock ([Date.now()], milliseconds).
      The clock is read once for a request; the parser, which reads it for
      each option, is given the reading made at each line.
    - Strings are sequences of 8-bit characters: the code units below
      U+0100, on which [trim] and [toLowerCase] are given exactly.
    - Time stamps are stored as ISO strings by the server and compared
      after [new Date(...)]; they are kept as the millisecond counts those
      strings denote. *)

From Stdlib Require Import ZArith QArith Qround Lia Lqa Ascii String.
From stdpp Require Import base decidable option list strings relations.

Local Open Scope string_scope.
Local Open Scope Z_scope.

(** ** JavaScript strings *)

Module JsString.

(** [String.prototype.startsWith] for a one-character prefix. *)
Definition startsWith (s : string) (c : ascii) : bool :=
  match s with
  | String c' _ => bool_decide (c' = c)
  | EmptyString => false
  end.

(** [s.substring(1)]. *)
Definition substring1 (s : string) : string :=
  match s with
  | String _ rest => rest
  | EmptyString => EmptyString
  end.

(** White space and line terminators below U+0100: TAB, LF, VT, FF, CR,
    SPACE and NO-BREAK SPACE. *)
Definition isWhiteSpace (c : ascii) : bool :=
  let n := N_of_ascii c in
  ((9 <=? n) && (n <=? 13) || (n =? 32) || (n =? 160))%N.

Fixpoint trimStart (s : string) : string :=
  match s with
  | String c rest => if isWhiteSpace c then trimStart rest else s
  | EmptyString => EmptyString
  end.

(** Removes trailing white space: a character is kept when it is not
    white space or when something is kept after it. *)
Fixpoint trimEnd (s : string) : string :=
  match s with
  | String c rest =>
      match trimEnd rest with
      | EmptyString => if isWhiteSpace c then EmptyString else String c EmptyString
      | kept => String c kept
      end
  | EmptyString => EmptyString
  end.

(** [String.prototype.trim]. *)
Definition trim (s : string) : string := trimEnd (trimStart s).

(** Lower-case mapping of one code unit below U+0100: A-Z and the
    Latin-1 capitals U+00C0-U+00DE (the multiplication sign U+00D7
    apart) move up by 32. *)
Definition lowerChar (c : ascii) : ascii :=
  let n := N_of_ascii c in
  if ((65 <=? n) && (n <=? 90)
      || (192 <=? n) && (n <=? 222) && negb (n =? 215))%N
  then ascii_of_N (n + 32) else c.

Fixpoint toLowerCase (s : string) : string :=
  match s with
  | String c rest => String (lowerChar c) (toLowerCase rest)
  | EmptyString => EmptyString
  end.

(** Truthiness of a string: only the empty string is falsy. *)
Definition truthy (s : string) : bool :=
  match s with
  | EmptyString => false
  | _ => true
  end.

(** Decimal digits of a non-negative integer, most significant first.
    [fuel] bounds the number of digits. *)
Fixpoint digits (fuel : nat) (n : Z) : list ascii :=
  match fuel with
  | O => []
  | S fuel' =>
      let d := ascii_of_N (48 + Z.to_N (n mod 10)) in
      if n <? 10 then [d] else digits fuel' (n / 10) ++ [d]
  end.

(** [Number.prototype.toString] on a non-negative integer.  A number has
    no more decimal digits than binary ones, which gives the fuel. *)
Definition Number_toString (n : Z) : string :=
  string_of_list_ascii (digits (S (Z.to_nat (Z.log2 n))) n).

Definition isDigit (c : ascii) : bool :=
  let n := N_of_ascii c in ((48 <=? n) && (n <=? 57))%N.

(** The number a sequence of decimal digits denotes, given the number
    [acc] denoted by the digits before it. *)
Fixpoint digitsValue (acc : Z) (ds : list ascii) : Z :=
  match ds with
  | [] => acc
  | d :: ds' => digitsValue (10 * acc + (Z.of_N (N_of_ascii d) - 48)) ds'
  end.

End JsString.

(** ** The verification pipeline *)

Module Auth.
Import JsString.

(** The [status] field of a verification request. *)
Inductive Status := pending | step1_verified | expired | completed.

#[global] Instance Status_eq_dec : EqDecision Status.
Proof. solve_decision. Defined.

(** A record of [verifications.json]. *)
Record Verification := mkVerification {
  v_id : string;
  v_userId : string;
  v_telegram : string;
  v_name : string;
  v_phone : string;
  v_code : string;
  v_status : Status;
  v_createdAt : Z;
  v_expiresAt : Z
}.

(** [v.status = s], the other fields kept. *)
Definition set_status (s : Status) (v : Verification) : Verification :=
  {| v_id := v_id v; v_userId := v_userId v; v_telegram := v_telegram v;
     v_name := v_name v; v_phone := v_phone v; v_code := v_code v;
     v_status := s;
     v_createdAt := v_createdAt v; v_expiresAt := v_expiresAt v |}.

(** A record of [users.json]. *)
Record User := mkUser {
  u_id : string;
  u_username : string;
  u_password : string;
  u_name : string;
  u_phone : string;
  u_role : string;
  u_telegram : string;
  u_createdAt : Z
}.

(** The error replies of the three handlers, all sent with HTTP status
    400, each with the [error] message of its [return].  The constructor
    is the class of the error: a missing field, a request that is not
    found or has expired, a username that is taken. *)
Inductive Error :=
| ValidationError (message : string)
| NotFoundOrExpired (message : string)
| Conflict (message : string).

(** [new Date(v.expiresAt) > new Date()] at clock value [now]. *)
Definition unexpired (now : Z) (v : Verification) : bool :=
  now <? v_expiresAt v.

(** *** [POST /api/auth/send-code] *)

Record SendCodeReply := mkSendCodeReply {
  sc_message : string;
  sc_userId : string
}.

(** [Math.floor(100000 + Math.random() * 900000).toString()], the value
    of [Math.random()] taken as a rational. *)
Definition codeNumber (random : Q) : Z :=
  Qfloor (100000 + random * 900000).

Definition generateCode (random : Q) : string :=
  Number_toString (codeNumber random).

(** Removes one leading [@]. *)
Definition cleanTelegram (telegram : string) : string :=
  if startsWith telegram "@" then substring1 telegram else telegram.

(** The body of the [forEach]: a pending request of the same user name,
    compared without case, becomes expired. *)
Definition expireExisting (clean : string) (v : Verification) : Verification :=
  if bool_decide (toLowerCase (v_telegram v) = toLowerCase clean)
     && bool_decide (v_status v = pending)
  then set_status expired v
  else v.

Definition newVerification (uuid1 uuid2 clean name phone : string)
    (random : Q) (now : Z) : Verification :=
  {| v_id := uuid2; v_userId := uuid1; v_telegram := clean;
     v_name := name; v_phone := phone; v_code := generateCode random;
     v_status := pending;
     v_createdAt := now; v_expiresAt := now + 30 * 60 * 1000 |}.

(** [uuid1] and [uuid2] are the two identifiers drawn by [uuidv4()], in
    the order of the calls: the user identifier, then the identifier of
    the request. *)
Definition sendCode (telegram name phone : string)
    (random : Q) (uuid1 uuid2 : string) (now : Z)
    (verifications : list Verification)
    : Error + (SendCodeReply * list Verification) :=
  if negb (truthy telegram) then
    inl (ValidationError "Telegram username kiritilishi shart")
  else if negb (truthy name) then
    inl (ValidationError "To'liq ism kiritilishi shart")
  else if negb (truthy phone) then
    inl (ValidationError "Telefon raqam kiritilishi shart")
  else
    let userId := uuid1 in
    let clean := cleanTelegram telegram in
    let verifications' :=
      ((expireExisting clean <$> verifications)
         ++ [newVerification userId uuid2 clean name phone random now])%list in
    inr ({| sc_message := "Tasdiqlash kodini olish uchun Telegram botga o'ting va /start buyrug'ini bosing";
            sc_userId := userId |},
         verifications').

(** *** [POST /api/auth/verify-code-step1] *)

(** The predicate given to [verifications.find]. *)
Definition step1Match (telegram code userId : string) (now : Z)
    (v : Verification) : bool :=
  bool_decide (v_telegram v = telegram)
  && bool_decide (v_code v = code)
  && bool_decide (v_status v = pending)
  && bool_decide (v_userId v = userId)
  && unexpired now v.

Definition verifyCodeStep1 (telegram code userId : string) (now : Z)
    (verifications : list Verification)
    : Error + (string * list Verification) :=
  if negb (truthy telegram) || negb (truthy code) || negb (truthy userId) then
    inl (ValidationError "Barcha ma'lumotlar kiritilishi shart")
  else
    match list_find (step1Match telegram code userId now) verifications with
    | None =>
        inl (NotFoundOrExpired "Noto'g'ri yoki muddati o'tgan tasdiqlash kodi")
    | Some (i, verification) =>
        inr ("Kod tasdiqlandi. Endi tizimga kirish ma'lumotlarini yarating.",
             <[i := set_status step1_verified verification]> verifications)
    end.

(** *** [POST /api/auth/complete-registration] *)

Record PublicUser := mkPublicUser {
  pu_id : string;
  pu_username : string;
  pu_name : string;
  pu_role : string
}.

Record RegistrationReply := mkRegistrationReply {
  rr_message : string;
  rr_token : string;
  rr_user : PublicUser
}.

(** The predicate given to [verifications.find]. *)
Definition registrationMatch (userId : string) (now : Z)
    (v : Verification) : bool :=
  bool_decide (v_userId v = userId)
  && bool_decide (v_status v = step1_verified)
  && unexpired now v.

Section CompleteRegistration.

(** [bcrypt.hashSync(password, 10)], as a function of the password and
    of the salt it draws. *)
Variable hashSync : string -> string -> string.

(** [jwt.sign] on the payload [{id, username, role}], issued at [now]. *)
Variable jwt_sign : string -> string -> string -> Z -> string.

Definition completeRegistration
    (userId username password name phone telegram : string)
    (salt : string) (now : Z)
    (users : list User) (verifications : list Verification)
    : Error + (RegistrationReply * list User * list Verification) :=
  if negb (truthy userId) || negb (truthy username) || negb (truthy password)
     || negb (truthy name) || negb (truthy phone) || negb (truthy telegram) then
    inl (ValidationError "Barcha ma'lumotlar kiritilishi shart")
  else if existsb (fun u => bool_decide (u_username u = username)) users then
    inl (Conflict "Bu foydalanuvchi nomi allaqachon mavjud")
  else
    match list_find (registrationMatch userId now) verifications with
    | None =>
        inl (NotFoundOrExpired "Yaroqsiz yoki muddati o'tgan ro'yxatdan o'tish jarayoni")
    | Some (i, verification) =>
        let newUser :=
          {| u_id := userId; u_username := username;
             u_password := hashSync password salt;
             u_name := name; u_phone := phone; u_role := "student";
             u_telegram := telegram; u_createdAt := now |} in
        inr ({| rr_message := "Ro'yxatdan muvaffaqiyatli o'tdingiz";
                rr_token := jwt_sign (u_id newUser) (u_username newUser)
                                     (u_role newUser) now;
                rr_user := {| pu_id := u_id newUser;
                              pu_username := u_username newUser;
                              pu_name := u_name newUser;
                              pu_role := u_role newUser |} |},
             (users ++ [newUser])%list,
             <[i := set_status completed verification]> verifications)
    end.

End CompleteRegistration.

End Auth.

(** ** The scoring engine: [POST /api/results] *)

Module Results.
Import JsString.

(** The values met by the handler in the parsed request body and in
    [tests.json].  [VUndefined] is what reading a property that an
    object does not have gives.  Numbers are the integers; the content
    of an object that is not one of the records below is never read. *)
#[warnings="-register-all"]
Inductive value :=
| VUndefined
| VNull
| VBool (b : bool)
| VNum (n : Z)
| VStr (s : string)
| VArr (items : list value)
| VObj.

(** [a === b], and the comparison made by [Array.prototype.includes],
    for two values of which one comes from the request and the other
    from [tests.json]: two arrays or objects are then never the same
    object. *)
Definition strict_eq (a b : value) : bool :=
  match a, b with
  | VUndefined, VUndefined => true
  | VNull, VNull => true
  | VBool x, VBool y => Bool.eqb x y
  | VNum x, VNum y => x =? y
  | VStr x, VStr y => bool_decide (x = y)
  | _, _ => false
  end.

Definition truthy (v : value) : bool :=
  match v with
  | VUndefined | VNull => false
  | VBool b => b
  | VNum n => negb (n =? 0)
  | VStr s => JsString.truthy s
  | VArr _ | VObj => true
  end.

Definition Array_isArray (v : value) : bool :=
  match v with
  | VArr _ => true
  | _ => false
  end.

Definition elements (v : value) : list value :=
  match v with
  | VArr items => items
  | _ => []
  end.

(** [items.includes(x)]. *)
Definition includes (items : list value) (x : value) : bool :=
  existsb (fun y => strict_eq y x) items.

(** An option of a question; [correct] is a boolean flag. *)
Record Choice := mkChoice {
  o_id : value;
  o_text : string;
  o_correct : bool
}.

(** A question of a test.  [options] may be absent (as it is for a text
    question): [q_options] is then [None]. *)
Record Question := mkQuestion {
  q_id : value;
  q_type : value;
  q_options : option (list Choice);
  q_correctAnswer : value
}.

Record Test := mkTest {
  t_id : value;
  t_questions : list Question
}.

(** One submitted answer: the properties read by the handler. *)
Record Answer := mkAnswer {
  a_questionId : value;
  a_optionId : value;
  a_selectedOptions : value;
  a_text : value
}.

(** [{ ...answer, correct }]. *)
Record GradedAnswer := mkGradedAnswer {
  ga_answer : Answer;
  ga_correct : bool
}.

(** The exceptions the grading loop can raise: a property read on
    [undefined] or [null], and a call of a property that is not a
    function.  [object] is the expression whose property is read. *)
Inductive TypeError :=
| CannotReadProperty (object property : string)
| NotAFunction (object property : string).

(** [v.trim().toLowerCase()], where [object] is the expression that
    evaluates to [v]: only a string has a [trim] method. *)
Definition trimLower (object : string) (v : value) : TypeError + string :=
  match v with
  | VStr s => inr (toLowerCase (trim s))
  | VUndefined | VNull => inl (CannotReadProperty object "trim")
  | _ => inl (NotAFunction object "trim")
  end.

(** [test.questions.find((q) => q.id === answer.questionId)]. *)
Definition findQuestion (test : Test) (answer : Answer) : option Question :=
  find (fun q => strict_eq (q_id q) (a_questionId answer)) (t_questions test).

(** The [multiple-answer] branch once [answer.selectedOptions] is known
    to be an array. *)
Definition gradeSelection (options : list Choice) (selectedOptions : list value)
    : bool :=
  let correctOptions := o_id <$> filter (fun o => o_correct o) options in
  let incorrectOptions := o_id <$> filter (fun o => negb (o_correct o)) options in
  let allCorrectSelected :=
    forallb (fun id => includes selectedOptions id) correctOptions in
  let noIncorrectSelected :=
    negb (existsb (fun id => includes incorrectOptions id) selectedOptions) in
  allCorrectSelected && noIncorrectSelected.

(** The value of [correct] computed for a question that was found. *)
Definition gradeQuestion (question : Question) (answer : Answer)
    : TypeError + bool :=
  if strict_eq (q_type question) (VStr "multiple-choice") then
    match q_options question with
    | None => inl (CannotReadProperty "question.options" "find")
    | Some options =>
        match find (fun o => o_correct o) options with
        | None => inl (CannotReadProperty "correctOption" "id")
        | Some correctOption =>
            inr (strict_eq (a_optionId answer) (o_id correctOption))
        end
    end
  else if strict_eq (q_type question) (VStr "multiple-answer") then
    if truthy (a_selectedOptions answer)
       && Array_isArray (a_selectedOptions answer) then
      match q_options question with
      | None => inl (CannotReadProperty "question.options" "filter")
      | Some options =>
          inr (gradeSelection options (elements (a_selectedOptions answer)))
      end
    else inr false
  else if strict_eq (q_type question) (VStr "text") then
    match trimLower "answer.text" (a_text answer) with
    | inl e => inl e
    | inr submitted =>
        match trimLower "question.correctAnswer" (q_correctAnswer question) with
        | inl e => inl e
        | inr expected => inr (bool_decide (submitted = expected))
        end
    end
  else inr false.

(** The callback of [answers.map], without the counter. *)
Definition gradeAnswer (test : Test) (answer : Answer)
    : TypeError + GradedAnswer :=
  match findQuestion test answer with
  | None => inr {| ga_answer := answer; ga_correct := false |}
  | Some question =>
      match gradeQuestion question answer with
      | inl e => inl e
      | inr correct => inr {| ga_answer := answer; ga_correct := correct |}
      end
  end.

(** [answers.map(...)] with the counter [correctCount] threaded through
    the calls; the first exception ends the loop. *)
Fixpoint gradeAnswers (test : Test) (answers : list Answer) (correctCount : nat)
    : TypeError + (list GradedAnswer * nat) :=
  match answers with
  | [] => inr ([], correctCount)
  | answer :: rest =>
      match gradeAnswer test answer with
      | inl e => inl e
      | inr graded =>
          let correctCount' :=
            if ga_correct graded then S correctCount else correctCount in
          match gradeAnswers test rest correctCount' with
          | inl e => inl e
          | inr (gradedRest, n) => inr (graded :: gradedRest, n)
          end
      end
  end.

(** The numbers a score can be.  The quotient and the product are those
    of the rationals: rounding to a double is not part of the model. *)
Inductive Number :=
| NaN
| Infinity
| Finite (q : Q).

(** [(correctCount / length) * 100]. *)
Definition percentage (correctCount length : nat) : Number :=
  match length, correctCount with
  | O, O => NaN
  | O, S _ => Infinity
  | S _, _ =>
      Finite ((inject_Z (Z.of_nat correctCount) / inject_Z (Z.of_nat length)) * 100)
  end.

(** What the grading computes from a test and the submitted answers. *)
Record Grading := mkGrading {
  g_answers : list GradedAnswer;
  g_score : Number;
  g_correctCount : nat;
  g_totalQuestions : nat
}.

Definition Grade (test : Test) (answers : list Answer) : TypeError + Grading :=
  match gradeAnswers test answers 0 with
  | inl e => inl e
  | inr (gradedAnswers, correctCount) =>
      inr {| g_answers := gradedAnswers;
             g_score := percentage correctCount (length (t_questions test));
             g_correctCount := correctCount;
             g_totalQuestions := length (t_questions test) |}
  end.

(** A record of [results.json]. *)
Record Result := mkResult {
  r_id : string;
  r_testId : value;
  r_userId : string;
  r_answers : list GradedAnswer;
  r_score : Number;
  r_correctCount : nat;
  r_totalQuestions : nat;
  r_submittedAt : Z
}.

Record ResultReply := mkResultReply {
  rp_id : string;
  rp_score : Number;
  rp_correctCount : nat;
  rp_totalQuestions : nat
}.

(** How a request ends: a reply, an error reply, or an exception that
    leaves the handler. *)
Inductive Outcome :=
| Created (reply : ResultReply)
| Refused (http : Z) (error : string)
| Thrown (e : TypeError).

(** The handler.  [answers] is [None] when the body has no [answers] or
    one that is not an array; [userId] is the identifier in the token;
    [uuid] is the identifier drawn by [uuidv4()].  The second component
    is [results.json] after the request. *)
Definition postResults (testId : value) (answers : option (list Answer))
    (userId uuid : string) (now : Z)
    (tests : list Test) (results : list Result) : Outcome * list Result :=
  match answers with
  | Some answers =>
      if negb (truthy testId) then
        (Refused 400 "Barcha ma'lumotlar to'g'ri formatda kiritilishi shart", results)
      else
        match find (fun t => strict_eq (t_id t) testId) tests with
        | None => (Refused 404 "Test topilmadi", results)
        | Some test =>
            match Grade test answers with
            | inl e => (Thrown e, results)
            | inr g =>
                let newResult :=
                  {| r_id := uuid; r_testId := testId; r_userId := userId;
                     r_answers := g_answers g; r_score := g_score g;
                     r_correctCount := g_correctCount g;
                     r_totalQuestions := g_totalQuestions g;
                     r_submittedAt := now |} in
                (Created {| rp_id := r_id newResult;
                            rp_score := r_score newResult;
                            rp_correctCount := r_correctCount newResult;
                            rp_totalQuestions := r_totalQuestions newResult |},
                 (results ++ [newResult])%list)
            end
        end
  | None =>
      (Refused 400 "Barcha ma'lumotlar to'g'ri formatda kiritilishi shart", results)
  end.

End Results.

(** ** Notions used to state the properties *)

Module AuthNotions.
Import JsString Auth.

(** The user name stored in [v] is the handle without its leading [@],
    compared without case: the comparison made by [send-code]. *)
Definition sameHandle (handle : string) (v : Verification) : bool :=
  bool_decide (toLowerCase (v_telegram v) = toLowerCase (cleanTelegram handle)).

Definition isPending (v : Verification) : bool :=
  bool_decide (v_status v = pending).

(** A request is active when it is pending or step1-verified and has
    not expired. *)
Definition isActive (now : Z) (v : Verification) : bool :=
  (bool_decide (v_status v = pending)
   || bool_decide (v_status v = step1_verified))
  && unexpired now v.

(** The active requests of a handle. *)
Definition activeFor (handle : string) (now : Z)
    (verifications : list Verification) : list Verification :=
  filter (fun v => sameHandle handle v && isActive now v) verifications.

(** All fields of a request body are present and not empty. *)
Definition allTruthy (fields : list string) : bool :=
  forallb truthy fields.

Definition usernameTaken (username : string) (users : list User) : bool :=
  existsb (fun u => bool_decide (u_username u = username)) users.

(** The request [v] can be confirmed at step 1 with these inputs at
    clock value [now]. *)
Definition step1Eligible (telegram code userId : string) (now : Z)
    (v : Verification) : Prop :=
  v_telegram v = telegram /\ v_code v = code /\ v_status v = pending
  /\ v_userId v = userId /\ now < v_expiresAt v.

(** The request [v] can be turned into an account of [userId] at clock
    value [now]. *)
Definition registrationEligible (userId : string) (now : Z)
    (v : Verification) : Prop :=
  v_userId v = userId /\ v_status v = step1_verified /\ now < v_expiresAt v.

(** The two error replies of [complete-registration] after validation. *)
Definition conflict : Error :=
  Conflict "Bu foydalanuvchi nomi allaqachon mavjud".

Definition notFoundOrExpired : Error :=
  NotFoundOrExpired "Yaroqsiz yoki muddati o'tgan ro'yxatdan o'tish jarayoni".

(** At most one request carries the user identifier. *)
Definition uniqueUserId (userId : string)
    (verifications : list Verification) : Prop :=
  forall (i j : nat) (v w : Verification),
    verifications !! i = Some v -> verifications !! j = Some w ->
    v_userId v = userId -> v_userId w = userId -> i = j.

End AuthNotions.

(** ** Sample data *)

Module AuthSamples.
Import Auth.

(** A request of [alice] already confirmed at step 1, valid until
    [t = 1800000]. *)
Definition alice_verified : Verification :=
  {| v_id := "V0"; v_userId := "U0"; v_telegram := "alice";
     v_name := "Alice"; v_phone := "+998900000000"; v_code := "111111";
     v_status := step1_verified;
     v_createdAt := 0; v_expiresAt := 1800000 |}.

(** A pending request of [alice] and one of [bob]. *)
Definition alice_pending : Verification :=
  {| v_id := "V1"; v_userId := "U1"; v_telegram := "Alice";
     v_name := "Alice"; v_phone := "+998900000000"; v_code := "123456";
     v_status := pending;
     v_createdAt := 0; v_expiresAt := 1800000 |}.

(** A pending request of [alice] that expires at [t = 1000]. *)
Definition alice_expiring : Verification :=
  {| v_id := "V3"; v_userId := "U3"; v_telegram := "alice";
     v_name := "Alice"; v_phone := "+998900000000"; v_code := "123456";
     v_status := pending;
     v_createdAt := 0; v_expiresAt := 1000 |}.

Definition bob_pending : Verification :=
  {| v_id := "V2"; v_userId := "U2"; v_telegram := "bob";
     v_name := "Bob"; v_phone := "+998900000001"; v_code := "654321";
     v_status := pending;
     v_createdAt := 0; v_expiresAt := 1800000 |}.

Definition hash (password salt : string) : string := salt ++ password.

Definition sign (id username role : string) (now : Z) : string :=
  id ++ "." ++ username ++ "." ++ role.

End AuthSamples.

Module ResultsNotions.
Import JsString Results.


(** The identifiers of the options flagged correct, and of the others. *)
Definition correctIds (options : list Choice) : list value :=
  o_id <$> filter (fun o => o_correct o) options.

Definition incorrectIds (options : list Choice) : list value :=
  o_id <$> filter (fun o => negb (o_correct o)) options.

(** Every correct option is selected. *)
Definition allCorrectSelected (options : list Choice) (selected : list value)
    : Prop :=
  forall id, id ∈ correctIds options -> includes selected id = true.

(** No selected identifier is that of an option not flagged correct. *)
Definition noIncorrectSelected (options : list Choice) (selected : list value)
    : Prop :=
  forall id, id ∈ selected -> includes (incorrectIds options) id = false.

(** The selection and the correct options are the same set: each
    contains the identifiers of the other. *)
Definition sameSet (selected ids : list value) : bool :=
  forallb (fun id => includes selected id) ids
  && forallb (fun id => includes ids id) selected.

(** Every selected identifier is that of an option of the question. *)
Definition selectionWithinOptions (options : list Choice)
    (selected : list value) : Prop :=
  forall id, id ∈ selected -> includes (o_id <$> options) id = true.

(** No identifier is shared by a correct and an incorrect option. *)
Definition unambiguousIds (options : list Choice) : Prop :=
  forall id, id ∈ correctIds options ->
    includes (incorrectIds options) id = false.



End ResultsNotions.

Module ResultsSamples.
Import Results.

Definition optA : Choice := {| o_id := VStr "A"; o_text := "Paris"; o_correct := true |}.
Definition optB : Choice := {| o_id := VStr "B"; o_text := "Lyon"; o_correct := true |}.
Definition optC : Choice := {| o_id := VStr "C"; o_text := "Rome"; o_correct := false |}.

(** A multiple-choice question, a multiple-answer question with correct
    options A and B, a text question, and a multiple-choice question
    none of whose options is flagged correct. *)
Definition q1 : Question :=
  {| q_id := VStr "q1"; q_type := VStr "multiple-choice";
     q_options := Some [optA; optC]; q_correctAnswer := VUndefined |}.

Definition q2 : Question :=
  {| q_id := VStr "q2"; q_type := VStr "multiple-answer";
     q_options := Some [optA; optB; optC]; q_correctAnswer := VUndefined |}.

Definition q3 : Question :=
  {| q_id := VStr "q3"; q_type := VStr "text";
     q_options := None; q_correctAnswer := VStr "Paris" |}.

Definition q4 : Question :=
  {| q_id := VStr "q4"; q_type := VStr "multiple-choice";
     q_options := Some [optC]; q_correctAnswer := VUndefined |}.

Definition quiz : Test :=
  {| t_id := VStr "T1"; t_questions := [q1; q2; q3] |}.

Definition brokenQuiz : Test :=
  {| t_id := VStr "T2"; t_questions := [q1; q4] |}.

Definition choose (questionId optionId : string) : Answer :=
  {| a_questionId := VStr questionId; a_optionId := VStr optionId;
     a_selectedOptions := VUndefined; a_text := VUndefined |}.

Definition select (questionId : string) (ids : list string) : Answer :=
  {| a_questionId := VStr questionId; a_optionId := VUndefined;
     a_selectedOptions := VArr (VStr <$> ids); a_text := VUndefined |}.

Definition write (questionId text : string) : Answer :=
  {| a_questionId := VStr questionId; a_optionId := VUndefined;
     a_selectedOptions := VUndefined; a_text := VStr text |}.

End ResultsSamples.

(** ** The Telegram bot *)

Module Bot.
Import JsString Auth.

(** A record of [notifications.json].  [n_chatId] and [n_sentAt] are
    [None] when the property is absent. *)
Record Notification := mkNotification {
  n_id : string;
  n_userId : string;
  n_telegram : string;
  n_message : string;
  n_chatId : option Z;
  n_createdAt : Z;
  n_sent : bool;
  n_sentAt : option Z
}.

(** The predicate given to [verifications.find] by
    [checkPendingVerification]: the stored user name is the Telegram user
    name, with or without a leading [@], compared without case. *)
Definition pendingMatch (username : string) (now : Z) (v : Verification) : bool :=
  (bool_decide (toLowerCase (v_telegram v) = toLowerCase username)
   || bool_decide (toLowerCase (v_telegram v) = "@" ++ toLowerCase username))
  && bool_decide (v_status v = pending)
  && unexpired now v.

(** [logNotification(userId, telegram, code, chatId)]; [uuid] is the
    identifier drawn by [uuidv4()]. *)
Definition logNotification (userId telegram code : string) (chatId : Z)
    (uuid : string) (now : Z) (notifications : list Notification)
    : list Notification :=
  (notifications
   ++ [{| n_id := uuid; n_userId := userId; n_telegram := telegram;
          n_message := "Verification code sent: " ++ code;
          n_chatId := Some chatId; n_createdAt := now;
          n_sent := true; n_sentAt := Some now |}])%list.

(** The two answers of [checkPendingVerification]: the message that
    carries the code, and the message that says that no active code was
    found. *)
Inductive Reply :=
| CodeReply (code : string)
| NoCodeReply.

(** [checkPendingVerification(ctx, username)]: [username] is empty when
    the Telegram account has none, [chatId] is [ctx.chat.id].  The result
    is the answer sent, if any, and [notifications.json] after the call. *)
Definition checkPendingVerification (username : string) (chatId : Z)
    (uuid : string) (now : Z)
    (verifications : list Verification) (notifications : list Notification)
    : option Reply * list Notification :=
  if negb (truthy username) then (None, notifications)
  else
    match list_find (pendingMatch username now) verifications with
    | Some (_, pendingVerification) =>
        (Some (CodeReply (v_code pendingVerification)),
         logNotification (v_userId pendingVerification) username
           (v_code pendingVerification) chatId uuid now notifications)
    | None => (Some NoCodeReply, notifications)
    end.

(** A call of [bot.telegram.sendMessage]: the chat identifier or the user
    name it is addressed to, and the text. *)
Record Message := mkMessage {
  m_chat : Z + string;
  m_text : string
}.

(** Truthiness of [notification.chatId]. *)
Definition hasChatId (n : Notification) : bool :=
  match n_chatId n with
  | Some chatId => negb (chatId =? 0)
  | None => false
  end.

(** The message sent for one notification by the loop of
    [sendPendingNotifications]. *)
Definition messageFor (n : Notification) : Message :=
  let username :=
    if startsWith (n_telegram n) "@" then substring1 (n_telegram n)
    else n_telegram n in
  match n_chatId n with
  | Some chatId =>
      if hasChatId n then {| m_chat := inl chatId; m_text := n_message n |}
      else {| m_chat := inr username; m_text := n_message n |}
  | None => {| m_chat := inr username; m_text := n_message n |}
  end.

(** [notification.sent = true; notification.sentAt = ...]. *)
Definition markSent (now : Z) (n : Notification) : Notification :=
  {| n_id := n_id n; n_userId := n_userId n; n_telegram := n_telegram n;
     n_message := n_message n; n_chatId := n_chatId n;
     n_createdAt := n_createdAt n; n_sent := true; n_sentAt := Some now |}.

(** [sendPendingNotifications(bot)]: the messages sent, in order, and
    [notifications.json] after the call.  The notifications that were not
    sent are objects of the collection itself: marking them changes the
    collection that is written back. *)
Definition sendPendingNotifications (now : Z) (notifications : list Notification)
    : list Message * list Notification :=
  match notifications with
  | [] => ([], notifications)
  | _ =>
      let pendingNotifications :=
        filter (fun n => negb (n_sent n)) notifications in
      (messageFor <$> pendingNotifications,
       (fun n => if negb (n_sent n) then markSent now n else n)
         <$> notifications)
  end.

(** [Number.prototype.toString] on an integer. *)
Definition Integer_toString (n : Z) : string :=
  if n <? 0 then "-" ++ Number_toString (- n) else Number_toString n.

(** [formatTime(seconds)] on an integer number of seconds: [Math.floor]
    of the quotient, and the remainder of [%], which has the sign of
    [seconds]. *)
Definition formatTime (seconds : Z) : string :=
  let minutes := seconds / 60 in
  let remainingSeconds := Z.rem seconds 60 in
  Integer_toString minutes ++ ":"
  ++ (if remainingSeconds <? 10 then "0" else "")
  ++ Integer_toString remainingSeconds.

End Bot.

(** ** Signing in *)

Module Login.
Import JsString Auth.

(** The error replies of [POST /api/auth/login]: status 400 when a field
    is missing, status 401 when the user name is unknown or the password
    is wrong. *)
Inductive LoginError :=
| MissingCredentials (message : string)
| InvalidCredentials (message : string).

Record LoginReply := mkLoginReply {
  lr_token : string;
  lr_user : PublicUser
}.

Section Login.

(** [bcrypt.compareSync(password, hash)]. *)
Variable compareSync : string -> string -> bool.

(** [jwt.sign] on the payload [{id, username, role}], issued at [now]. *)
Variable jwt_sign : string -> string -> string -> Z -> string.

Definition login (username password : string) (now : Z) (users : list User)
    : LoginError + LoginReply :=
  if negb (truthy username) || negb (truthy password) then
    inl (MissingCredentials "Foydalanuvchi nomi va parol kiritilishi shart")
  else
    match find (fun u => bool_decide (u_username u = username)) users with
    | Some user =>
        if compareSync password (u_password user) then
          inr {| lr_token := jwt_sign (u_id user) (u_username user)
                               (u_role user) now;
                 lr_user := {| pu_id := u_id user;
                               pu_username := u_username user;
                               pu_name := u_name user;
                               pu_role := u_role user |} |}
        else inl (InvalidCredentials "Noto'g'ri foydalanuvchi nomi yoki parol")
    | None => inl (InvalidCredentials "Noto'g'ri foydalanuvchi nomi yoki parol")
    end.

End Login.

End Login.

(** ** Creating and deleting tests *)

Module Tests.
Import Results.

(** The replies of the two handlers: the status and, for the errors and
    for the deletion, the message. *)
Inductive Outcome :=
| Stored (test : Test)
| Deleted (message : string)
| Refused (http : Z) (error : string).

(** [{ id: uuidv4(), ...q }]: the spread after [id] keeps the [id] of a
    question that has one.  A parsed JSON object has no property whose
    value is [undefined], so that [VUndefined] stands for the absence of
    [id]. *)
Definition withId (uuid : string) (q : Question) : Question :=
  match q_id q with
  | VUndefined =>
      {| q_id := VStr uuid; q_type := q_type q; q_options := q_options q;
         q_correctAnswer := q_correctAnswer q |}
  | _ => q
  end.

(** [questions.map((q) => ({ id: uuidv4(), ...q }))], the identifier
    drawn for the question of index [i] being [uuid (first + i)]. *)
Fixpoint withIds (uuid : nat -> string) (first : nat) (questions : list Question)
    : list Question :=
  match questions with
  | [] => []
  | q :: rest => withId (uuid first) q :: withIds uuid (S first) rest
  end.

(** [POST /api/tests].  [title] and [duration] are the values of the
    body, [questions] is [None] when the body has no [questions] or one
    that is not an array.  [uuid 0] is the identifier drawn for the test,
    [uuid (1 + i)] the one drawn for its question of index [i]. *)
Definition createTest (title duration : value) (questions : option (list Question))
    (uuid : nat -> string) (tests : list Test) : Outcome * list Test :=
  match questions with
  | Some questions =>
      if negb (truthy title) || negb (truthy duration)
         || (length questions =? 0)%nat then
        (Refused 400 "Barcha ma'lumotlar to'g'ri formatda kiritilishi shart", tests)
      else
        let newTest :=
          {| t_id := VStr (uuid 0%nat);
             t_questions := withIds uuid 1 questions |} in
        (Stored newTest, (tests ++ [newTest])%list)
  | None =>
      (Refused 400 "Barcha ma'lumotlar to'g'ri formatda kiritilishi shart", tests)
  end.

(** [DELETE /api/tests/:id]: [tests.json] and [results.json] after the
    request.  Nothing is written when no test has the identifier. *)
Definition deleteTest (id : string) (tests : list Test) (results : list Result)
    : Outcome * list Test * list Result :=
  let filteredTests :=
    filter (fun t => negb (strict_eq (t_id t) (VStr id))) tests in
  if (length filteredTests =? length tests)%nat then
    (Refused 404 "Test topilmadi", tests, results)
  else
    let filteredResults :=
      filter (fun r => negb (strict_eq (r_testId r) (VStr id))) results in
    (Deleted "Test muvaffaqiyatli o'chirildi", filteredTests, filteredResults).

End Tests.

(** ** Reading results *)

Module ResultsView.
Import Results Auth.

(** An element of the reply of [GET /api/results].  [e_userId] and
    [e_userName] are present in the reply made to an administrator
    only. *)
Record Entry := mkEntry {
  e_id : string;
  e_testId : value;
  e_testTitle : value;
  e_userId : option string;
  e_userName : option string;
  e_score : Number;
  e_correctCount : nat;
  e_totalQuestions : nat;
  e_submittedAt : Z
}.

(** The reply of [GET /api/results/:id]: the result with the title of its
    test and the name of its user. *)
Record Detail := mkDetail {
  d_result : Result;
  d_testTitle : value;
  d_userName : string
}.

Inductive Outcome :=
| Found (detail : Detail)
| Refused (http : Z) (error : string).

Section Handlers.

(** The [title] property of a stored test. *)
Variable title : Test -> value.

(** [test ? test.title : "Unknown Test"] for the test of a result. *)
Definition testTitle (tests : list Test) (result : Result) : value :=
  match find (fun t => strict_eq (t_id t) (r_testId result)) tests with
  | Some test => title test
  | None => VStr "Unknown Test"
  end.

(** [user ? user.name : "Unknown User"] for the user of a result. *)
Definition userName (users : list User) (result : Result) : string :=
  match find (fun u => bool_decide (u_id u = r_userId result)) users with
  | Some user => u_name user
  | None => "Unknown User"
  end.

(** [GET /api/results] for the user [userId] of role [role], both read
    from the token. *)
Definition listResults (role userId : string)
    (results : list Result) (tests : list Test) (users : list User)
    : list Entry :=
  if bool_decide (role = "admin") then
    (fun result =>
       {| e_id := r_id result; e_testId := r_testId result;
          e_testTitle := testTitle tests result;
          e_userId := Some (r_userId result);
          e_userName := Some (userName users result);
          e_score := r_score result;
          e_correctCount := r_correctCount result;
          e_totalQuestions := r_totalQuestions result;
          e_submittedAt := r_submittedAt result |}) <$> results
  else
    (fun result =>
       {| e_id := r_id result; e_testId := r_testId result;
          e_testTitle := testTitle tests result;
          e_userId := None;
          e_userName := None;
          e_score := r_score result;
          e_correctCount := r_correctCount result;
          e_totalQuestions := r_totalQuestions result;
          e_submittedAt := r_submittedAt result |})
      <$> filter (fun r => bool_decide (r_userId r = userId)) results.

(** [GET /api/results/:id]. *)
Definition getResult (id : string) (role userId : string)
    (results : list Result) (tests : list Test) (users : list User)
    : Outcome :=
  match find (fun r => bool_decide (r_id r = id)) results with
  | None => Refused 404 "Natija topilmadi"
  | Some result =>
      if negb (bool_decide (role = "admin"))
         && negb (bool_decide (r_userId result = userId)) then
        Refused 403 "Siz bu natijani ko'rish huquqiga ega emassiz"
      else
        Found {| d_result := result;
                 d_testTitle := testTitle tests result;
                 d_userName := userName users result |}
  end.

End Handlers.

End ResultsView.

(** ** Importing questions: [lib/testParser] *)

Module TestParser.
Import JsString.

Record ParsedOption := mkParsedOption {
  po_id : string;
  po_text : string;
  po_correct : bool
}.

(** A question as the parser builds it; [pq_image] is [None] for
    [null]. *)
Record ParsedQuestion := mkParsedQuestion {
  pq_text : string;
  pq_type : string;
  pq_options : list ParsedOption;
  pq_image : option string
}.

Definition isNewline (c : ascii) : bool := (N_of_ascii c =? 10)%N.

(** The first line of a text and the lines after it. *)
Fixpoint splitFirst (s : string) : string * list string :=
  match s with
  | EmptyString => (EmptyString, [])
  | String c rest =>
      let (line, lines) := splitFirst rest in
      if isNewline c then (EmptyString, line :: lines)
      else (String c line, lines)
  end.

(** [fileContent.split("\n")]. *)
Definition splitLines (fileContent : string) : list string :=
  let (line, lines) := splitFirst fileContent in line :: lines.

(** The question opened by a [#] line. *)
Definition newQuestion (line : string) : ParsedQuestion :=
  {| pq_text := trim (substring1 line); pq_type := "multiple-choice";
     pq_options := []; pq_image := None |}.

(** [currentQuestion.image = line.substring(1).trim()]. *)
Definition setImage (line : string) (q : ParsedQuestion) : ParsedQuestion :=
  {| pq_text := pq_text q; pq_type := pq_type q; pq_options := pq_options q;
     pq_image := Some (trim (substring1 line)) |}.

(** [currentQuestion.options.push(...)], at clock value [now]. *)
Definition pushOption (now : Z) (line : string) (q : ParsedQuestion)
    : ParsedQuestion :=
  let isCorrect := startsWith line "+" in
  let text := trim (substring1 line) in
  {| pq_text := pq_text q; pq_type := pq_type q;
     pq_options :=
       (pq_options q
        ++ [{| po_id := "option-" ++ Number_toString now ++ "-"
                        ++ Number_toString (Z.of_nat (length (pq_options q)));
               po_text := text; po_correct := isCorrect |}])%list;
     pq_image := pq_image q |}.

(** [questions.push(currentQuestion)] when there is a current question. *)
Definition pushCurrent (questions : list ParsedQuestion)
    (currentQuestion : option ParsedQuestion) : list ParsedQuestion :=
  match currentQuestion with
  | Some q => (questions ++ [q])%list
  | None => questions
  end.

(** The loop over the lines, from the line of index [i] on; [clock i] is
    the value of [Date.now()] while the line of index [i] is handled. *)
Fixpoint parseLines (clock : nat -> Z) (i : nat) (lines : list string)
    (questions : list ParsedQuestion) (currentQuestion : option ParsedQuestion)
    : list ParsedQuestion :=
  match lines with
  | [] => pushCurrent questions currentQuestion
  | line :: rest =>
      if negb (truthy line) then
        parseLines clock (S i) rest questions currentQuestion
      else if startsWith line "#" then
        parseLines clock (S i) rest (pushCurrent questions currentQuestion)
          (Some (newQuestion line))
      else
        match currentQuestion with
        | Some q =>
            if startsWith line "@" then
              parseLines clock (S i) rest questions (Some (setImage line q))
            else if startsWith line "+" || startsWith line "-" then
              parseLines clock (S i) rest questions
                (Some (pushOption (clock i) line q))
            else parseLines clock (S i) rest questions currentQuestion
        | None => parseLines clock (S i) rest questions currentQuestion
        end
  end.

Definition parseTestFile (clock : nat -> Z) (fileContent : string)
    : list ParsedQuestion :=
  parseLines clock 0 (trim <$> splitLines fileContent) [] None.

Section Select.

Context {A : Type}.

(** [[...questions].sort(() => Math.random() - 0.5)]: the order the
    engine gives to a copy of the array. *)
Variable shuffle : list A -> list A.

(** [selectRandomQuestions(questions, count)] for a count that is a
    natural number. *)
Definition selectRandomQuestions (questions : list A) (count : nat) : list A :=
  if (length questions <=? count)%nat then questions
  else take count (shuffle questions).

End Select.

End TestParser.

(** ** Notions for sequences of requests *)

Module LifecycleNotions.
Import JsString Auth.

(** The moves of a status the handlers can make, in any number: a pending
    request can become anything, a step1-verified one can become
    completed, an expired or completed one stays as it is. *)
Definition forward (s s' : Status) : Prop :=
  s = s' \/ s = pending \/ (s = step1_verified /\ s' = completed).

(** [v'] is [v] but for its status, which has moved forward. *)
Definition evolves (v v' : Verification) : Prop :=
  v' = set_status (v_status v') v /\ forward (v_status v) (v_status v').

(** Every request of [vs] is still in [vs'], at the same index. *)
Definition extends (vs vs' : list Verification) : Prop :=
  forall i v, vs !! i = Some v -> exists v', vs' !! i = Some v' /\ evolves v v'.

Section Requests.

Variable hashSync : string -> string -> string.
Variable jwt_sign : string -> string -> string -> Z -> string.

(** One request served with success by one of the three handlers of the
    pipeline, from [users.json] and [verifications.json] before it to the
    two collections after it. *)
Inductive served :
  list User * list Verification -> list User * list Verification -> Prop :=
| served_sendCode telegram name phone random uuid1 uuid2 now users vs reply vs' :
    sendCode telegram name phone random uuid1 uuid2 now vs = inr (reply, vs') ->
    served (users, vs) (users, vs')
| served_verifyCodeStep1 telegram code userId now users vs reply vs' :
    verifyCodeStep1 telegram code userId now vs = inr (reply, vs') ->
    served (users, vs) (users, vs')
| served_completeRegistration
    userId username password name phone telegram salt now users vs
    reply users' vs' :
    completeRegistration hashSync jwt_sign userId username password name phone
      telegram salt now users vs = inr (reply, users', vs') ->
    served (users, vs) (users', vs').

End Requests.

(** No stored user name starts with [@]. *)
Definition noAtHandles (vs : list Verification) : Prop :=
  forall v, v ∈ vs -> startsWith (v_telegram v) "@" = false.



End LifecycleNotions.

(** ** Notions for tests, results and imported questions *)

Module StoreNotions.
Import JsString Results TestParser.

(** Some stored test has the identifier the result refers to. *)
Definition refersTo (tests : list Test) (r : Result) : Prop :=
  exists t, t ∈ tests /\ strict_eq (t_id t) (r_testId r) = true.

(** Every stored result refers to a stored test. *)
Definition consistent (tests : list Test) (results : list Result) : Prop :=
  forall r, r ∈ results -> refersTo tests r.

(** The lines that open a question, and those that add an option. *)
Definition isHeading (line : string) : bool := startsWith line "#".

Definition isOptionLine (line : string) : bool :=
  startsWith line "+" || startsWith line "-".

(** The text and the flag of the option a line adds. *)
Definition optionOf (line : string) : string * bool :=
  (trim (substring1 line), startsWith line "+").

(** The image set by the last [@] line, if any. *)
Definition lastImage (lines : list string) : option string :=
  match filter (fun line => startsWith line "@") lines with
  | [] => None
  | images =>
      (fun line => trim (substring1 line)) <$> last images
  end.

(** The text and the flag of a parsed option. *)
Definition optionContent (o : ParsedOption) : string * bool :=
  (po_text o, po_correct o).

(** The option of index [k] has an identifier made of a clock value and
    of [k]. *)
Definition numbered (options : list ParsedOption) : Prop :=
  forall k o, options !! k = Some o ->
    exists now : Z,
      po_id o = "option-" ++ Number_toString now ++ "-"
                ++ Number_toString (Z.of_nat k).


End StoreNotions.

(** * Properties *)

(** ** Strings and decimal numerals *)

Module JsStringFacts.
Import JsString.

Example trim_paris : trim "  paris	 " = "paris".
Proof. reflexivity. Qed.

Example toLowerCase_Paris : toLowerCase "Paris" = "paris".
Proof. reflexivity. Qed.

Example toString_123456 : Number_toString 123456 = "123456".
Proof. reflexivity. Qed.

Example toString_0 : Number_toString 0 = "0".
Proof. reflexivity. Qed.

Lemma digit_char (d : Z) :
  0 <= d < 10 ->
  let c := ascii_of_N (48 + Z.to_N d) in
  isDigit c = true /\ Z.of_N (N_of_ascii c) - 48 = d.
Proof.
  intros Hd.
  assert (Hc : d = 0 \/ d = 1 \/ d = 2 \/ d = 3 \/ d = 4
               \/ d = 5 \/ d = 6 \/ d = 7 \/ d = 8 \/ d = 9) by lia.
  repeat destruct Hc as [-> | Hc]; try subst d; split; reflexivity.
Qed.

Lemma digitsValue_app (acc : Z) (ds1 ds2 : list ascii) :
  digitsValue acc (ds1 ++ ds2) = digitsValue (digitsValue acc ds1) ds2.
Proof.
  revert acc. induction ds1 as [| d ds1 IH]; intros acc; simpl; [done |].
  apply IH.
Qed.

(** With enough fuel the digits are decimal digits and denote the
    number. *)
Lemma digits_spec (fuel : nat) (n : Z) :
  0 <= n < 10 ^ Z.of_nat fuel ->
  forallb isDigit (digits fuel n) = true /\ digitsValue 0 (digits fuel n) = n.
Proof.
  revert n. induction fuel as [| fuel IH]; intros n Hn.
  { simpl in Hn. assert (n = 0) as -> by lia. done. }
  assert (Hmod : 0 <= n mod 10 < 10) by (apply Z.mod_pos_bound; lia).
  destruct (digit_char (n mod 10) Hmod) as [Hdig Hval].
  cbn [digits]. destruct (Z.ltb_spec n 10) as [Hlt | Hge].
  - cbn. rewrite Hdig. split; [done |].
    rewrite Hval. rewrite Z.mod_small by lia. lia.
  - assert (Hdiv : 0 <= n / 10 < 10 ^ Z.of_nat fuel).
    { split; [apply Z.div_pos; lia |].
      apply Z.div_lt_upper_bound; [lia |].
      rewrite Nat2Z.inj_succ, Z.pow_succ_r in Hn by lia. lia. }
    destruct (IH _ Hdiv) as [IHd IHv].
    split.
    + rewrite forallb_app, IHd. cbn. by rewrite Hdig.
    + rewrite digitsValue_app, IHv. cbn. rewrite Hval.
      pose proof (Z.div_mod n 10). lia.
Qed.



(** [toString] of a non-negative integer is a decimal numeral of that
    integer. *)
Lemma Number_toString_spec (n : Z) :
  0 <= n ->
  let ds := list_ascii_of_string (Number_toString n) in
  forallb isDigit ds = true /\ digitsValue 0 ds = n.
Proof.
  intros Hn. cbn zeta. unfold Number_toString.
  rewrite list_ascii_of_string_of_list_ascii.
  apply digits_spec. split; [done |].
  rewrite Nat2Z.inj_succ, Z2Nat.id by apply Z.log2_nonneg.
  destruct (Z.eq_dec n 0) as [-> | Hne]; [done |].
  pose proof (Z.log2_spec n ltac:(lia)) as [_ Hlog].
  eapply Z.lt_le_trans; [exact Hlog |].
  apply Z.pow_le_mono_l. lia.
Qed.


End JsStringFacts.

(** ** Issuing a code *)

Module SendCodeFacts.
Import JsString Auth AuthNotions AuthSamples.
Local Open Scope list_scope.

(** What a successful [send-code] returns and writes. *)
Lemma sendCode_inr telegram name phone random uuid1 uuid2 now vs reply vs' :
  sendCode telegram name phone random uuid1 uuid2 now vs = inr (reply, vs') ->
  allTruthy [telegram; name; phone] = true
  /\ reply = {| sc_message := "Tasdiqlash kodini olish uchun Telegram botga o'ting va /start buyrug'ini bosing";
                sc_userId := uuid1 |}
  /\ vs' = (expireExisting (cleanTelegram telegram) <$> vs)
           ++ [newVerification uuid1 uuid2 (cleanTelegram telegram)
                 name phone random now].
Proof.
  unfold sendCode, allTruthy. cbn [forallb].
  destruct (truthy telegram), (truthy name), (truthy phone); cbn;
    intros H; inversion H; auto.
Qed.

Lemma sendCode_valid telegram name phone random uuid1 uuid2 now vs :
  allTruthy [telegram; name; phone] = true ->
  sendCode telegram name phone random uuid1 uuid2 now vs
  = inr ({| sc_message := "Tasdiqlash kodini olish uchun Telegram botga o'ting va /start buyrug'ini bosing";
            sc_userId := uuid1 |},
         (expireExisting (cleanTelegram telegram) <$> vs)
         ++ [newVerification uuid1 uuid2 (cleanTelegram telegram)
               name phone random now]).
Proof.
  unfold sendCode, allTruthy. cbn [forallb].
  destruct (truthy telegram), (truthy name), (truthy phone); cbn;
    intros H; by inversion H.
Qed.

Lemma expireExisting_same telegram v :
  sameHandle telegram v = true -> v_status v = pending ->
  expireExisting (cleanTelegram telegram) v = set_status expired v.
Proof.
  unfold sameHandle, expireExisting. intros -> ->. by rewrite bool_decide_eq_true_2.
Qed.

Lemma expireExisting_other_handle telegram v :
  sameHandle telegram v = false ->
  expireExisting (cleanTelegram telegram) v = v.
Proof. unfold sameHandle, expireExisting. by intros ->. Qed.

Lemma expireExisting_not_pending clean v :
  v_status v <> pending -> expireExisting clean v = v.
Proof.
  unfold expireExisting. intros H.
  rewrite (bool_decide_eq_false_2 _ H). by rewrite andb_false_r.
Qed.

(** After the [forEach] no request of the handle is pending. *)
Lemma expireExisting_none_pending telegram vs :
  filter (fun v => sameHandle telegram v && isPending v)
         (expireExisting (cleanTelegram telegram) <$> vs) = [].
Proof.
  induction vs as [| v vs IH]; [done |].
  rewrite fmap_cons, filter_cons_False; [exact IH |].
  unfold expireExisting, sameHandle, isPending.
  destruct (bool_decide (toLowerCase (v_telegram v)
                         = toLowerCase (cleanTelegram telegram))) eqn:Hh;
    destruct (bool_decide (v_status v = pending)) eqn:Hp; cbn;
    rewrite ?Hh, ?Hp; cbn; auto.
Qed.

(** C1, as the code has it: [send-code] expires the pending requests of
    the handle and no others.  After it, the appended request is the
    only pending request of the handle (compared without case, the
    leading [@] removed); every earlier pending request of that handle
    has become expired; a request of another handle, or one that was not
    pending (step1-verified ones included), is left as it was. *)
Theorem send_code_expires_pending
    (telegram name phone : string) (random : Q) (uuid1 uuid2 : string)
    (now : Z) (vs vs' : list Verification) (reply : SendCodeReply) :
  sendCode telegram name phone random uuid1 uuid2 now vs = inr (reply, vs') ->
  let new := newVerification uuid1 uuid2 (cleanTelegram telegram)
               name phone random now in
  filter (fun v => sameHandle telegram v && isPending v) vs' = [new]
  /\ isActive now new = true
  /\ vs' !! length vs = Some new
  /\ length vs' = S (length vs)
  /\ (forall i v, vs !! i = Some v ->
        sameHandle telegram v = true -> v_status v = pending ->
        vs' !! i = Some (set_status expired v))
  /\ (forall i v, vs !! i = Some v ->
        sameHandle telegram v = false -> vs' !! i = Some v)
  /\ (forall i v, vs !! i = Some v ->
        v_status v <> pending -> vs' !! i = Some v).
Proof.
  intros H new. apply sendCode_inr in H as (_ & _ & ->). fold new.
  assert (Hold : forall i v, vs !! i = Some v ->
            ((expireExisting (cleanTelegram telegram) <$> vs) ++ [new]) !! i
            = Some (expireExisting (cleanTelegram telegram) v)).
  { intros i v Hi. rewrite lookup_app_l.
    - by rewrite list_lookup_fmap, Hi.
    - rewrite length_fmap. by eapply lookup_lt_Some. }
  split_and!.
  - rewrite filter_app, expireExisting_none_pending.
    rewrite filter_cons_True; [done |].
    unfold sameHandle, isPending, new. cbn.
    by rewrite !bool_decide_eq_true_2.
  - unfold isActive, unexpired, new. cbn. apply Z.ltb_lt. lia.
  - rewrite lookup_app_r; rewrite length_fmap; [| done].
    by rewrite Nat.sub_diag.
  - rewrite length_app, length_fmap. cbn. lia.
  - intros i v Hi Hh Hp. rewrite (Hold _ _ Hi).
    by rewrite expireExisting_same.
  - intros i v Hi Hh. rewrite (Hold _ _ Hi).
    by rewrite expireExisting_other_handle.
  - intros i v Hi Hp. rewrite (Hold _ _ Hi).
    by rewrite expireExisting_not_pending.
Qed.

Lemma send_code_expires_pending_witness :
  exists reply vs',
    sendCode "@ALICE" "Alice" "+998900000000" (1 # 2) "U9" "V9" 1000
             [alice_pending; bob_pending; alice_verified] = inr (reply, vs')
    /\ vs' !! 0%nat = Some (set_status expired alice_pending)
    /\ vs' !! 1%nat = Some bob_pending
    /\ vs' !! 2%nat = Some alice_verified.
Proof.
  eexists _, _. split; [reflexivity |].
  pose proof (send_code_expires_pending "@ALICE" "Alice" "+998900000000"
                (1 # 2) "U9" "V9" 1000
                [alice_pending; bob_pending; alice_verified] _ _ eq_refl)
    as (_ & _ & _ & _ & Hsame & Hother & Hnot).
  split_and!.
  - apply Hsame; reflexivity.
  - apply Hother; reflexivity.
  - apply Hnot; [reflexivity | discriminate].
Defined.




Example generateCode_sample : generateCode (123456 # 900000) = "223456".
Proof. reflexivity. Qed.

(** C1 as the specification words it fails: a step1-verified request of
    the handle is not expired by [send-code], so two active requests of
    the handle remain. *)
Lemma send_code_keeps_step1_verified :
  exists reply vs',
    sendCode "@alice" "Alice" "+998900000000" (1 # 2) "U9" "V9" 1000
             [alice_verified] = inr (reply, vs')
    /\ vs' !! 0%nat = Some alice_verified
    /\ isActive 1000 alice_verified = true
    /\ ~ (length (activeFor "@alice" 1000 vs') <= 1)%nat.
Proof.
  eexists _, _. split; [reflexivity |].
  split_and!; [reflexivity | reflexivity |].
  vm_compute. lia.
Qed.

End SendCodeFacts.

(** ** Confirming a code *)

Module VerifyCodeFacts.
Import JsString Auth AuthNotions AuthSamples.
Local Open Scope list_scope.

Lemma step1Match_spec telegram code userId now v :
  step1Match telegram code userId now v
  <-> step1Eligible telegram code userId now v.
Proof.
  unfold step1Match, step1Eligible, unexpired.
  rewrite !andb_True, !bool_decide_spec, Is_true_true, Z.ltb_lt. tauto.
Qed.

(** C2, as the code has it: for a request body with its three fields,
    [verify-code-step1] succeeds exactly when some stored request is
    pending, has the same user name, code and user identifier, and
    expires strictly after the present instant; it then turns the first
    such request into a step1-verified one and leaves the rest of the
    collection as it is.  In every other case the reply is one and the
    same error, whatever the field that did not match. *)
Theorem verify_code_step1_iff
    (telegram code userId : string) (now : Z) (vs : list Verification) :
  allTruthy [telegram; code; userId] = true ->
  ((exists reply vs',
      verifyCodeStep1 telegram code userId now vs = inr (reply, vs'))
   <-> (exists v, v ∈ vs /\ step1Eligible telegram code userId now v))
  /\ (forall reply vs',
        verifyCodeStep1 telegram code userId now vs = inr (reply, vs') ->
        exists i v,
          vs !! i = Some v
          /\ step1Eligible telegram code userId now v
          /\ (forall j w, vs !! j = Some w -> (j < i)%nat ->
                ~ step1Eligible telegram code userId now w)
          /\ vs' = <[i := set_status step1_verified v]> vs
          /\ vs' !! i = Some (set_status step1_verified v)
          /\ (forall j, j <> i -> vs' !! j = vs !! j))
  /\ ((~ exists v, v ∈ vs /\ step1Eligible telegram code userId now v) ->
        verifyCodeStep1 telegram code userId now vs
        = inl (NotFoundOrExpired "Noto'g'ri yoki muddati o'tgan tasdiqlash kodi")).
Proof.
  intros Hvalid. unfold allTruthy in Hvalid. cbn [forallb] in Hvalid.
  apply andb_prop in Hvalid as [Ht Hvalid].
  apply andb_prop in Hvalid as [Hc Hvalid].
  apply andb_prop in Hvalid as [Hu _].
  unfold verifyCodeStep1. rewrite Ht, Hc, Hu. cbn [negb orb].
  destruct (list_find (step1Match telegram code userId now) vs)
    as [[i v] |] eqn:Hfind.
  - apply list_find_Some in Hfind as (Hi & Hm & Hleast).
    apply step1Match_spec in Hm.
    split_and!.
    + split; [| by eauto].
      intros _. exists v. split; [| done]. by eapply list_elem_of_lookup_2.
    + intros reply vs' [= <- <-]. exists i, v. split_and!; try done.
      * intros j w Hj Hlt Hw. apply (Hleast j w Hj Hlt).
        by apply step1Match_spec.
      * apply list_lookup_insert_eq. by eapply lookup_lt_Some.
      * intros j Hne. by apply list_lookup_insert_ne.
    + intros Hnone. exfalso. apply Hnone. exists v.
      split; [by eapply list_elem_of_lookup_2 | done].
  - apply list_find_None in Hfind. rewrite Forall_forall in Hfind.
    assert (Hnone : ~ exists v, v ∈ vs
                      /\ step1Eligible telegram code userId now v).
    { intros (v & Hin & Hm). apply (Hfind v Hin). by apply step1Match_spec. }
    split_and!.
    + split; [by intros (? & ? & ?) | by intros ?].
    + by intros reply vs' ?.
    + done.
Qed.

Lemma verify_code_step1_iff_witness :
  exists reply vs',
    verifyCodeStep1 "Alice" "123456" "U1" 999 [bob_pending; alice_pending]
    = inr (reply, vs')
    /\ vs' = [bob_pending; set_status step1_verified alice_pending].
Proof.
  destruct (verify_code_step1_iff "Alice" "123456" "U1" 999
              [bob_pending; alice_pending] eq_refl) as ((_ & Hsuccess) & _).
  destruct Hsuccess as (reply & vs' & Hrun).
  - exists alice_pending. split; [apply list_elem_of_further, list_elem_of_here |].
    unfold step1Eligible. cbn. repeat split; lia.
  - exists reply, vs'. split; [exact Hrun |].
    vm_compute in Hrun. by injection Hrun as _ <-.
Defined.

(** C2 as the specification words it fails at the instant of expiry: a
    request whose fields all match and with [now = expiresAt], hence
    [now ≤ expiresAt], is refused. *)
Lemma verify_code_step1_at_expiry :
  v_telegram alice_expiring = "alice"
  /\ v_code alice_expiring = "123456"
  /\ v_status alice_expiring = pending
  /\ v_userId alice_expiring = "U3"
  /\ 1000 <= v_expiresAt alice_expiring
  /\ verifyCodeStep1 "alice" "123456" "U3" 1000 [alice_expiring]
     = inl (NotFoundOrExpired "Noto'g'ri yoki muddati o'tgan tasdiqlash kodi").
Proof. split_and!; reflexivity. Qed.

End VerifyCodeFacts.

(** ** Completing a registration *)

Module CompleteRegistrationFacts.
Import JsString Auth AuthNotions AuthSamples.
Local Open Scope list_scope.

Lemma registrationMatch_spec userId now v :
  registrationMatch userId now v <-> registrationEligible userId now v.
Proof.
  unfold registrationMatch, registrationEligible, unexpired.
  rewrite !andb_True, !bool_decide_spec, Is_true_true, Z.ltb_lt. tauto.
Qed.

Lemma usernameTaken_spec username users :
  usernameTaken username users = true
  <-> exists u, u ∈ users /\ u_username u = username.
Proof.
  unfold usernameTaken. rewrite existsb_exists. split.
  - intros (u & Hin & Hu). exists u. rewrite list_elem_of_In.
    split; [done |]. by apply bool_decide_eq_true_1 in Hu.
  - intros (u & Hin & Hu). exists u. rewrite <- list_elem_of_In.
    split; [done |]. by apply bool_decide_eq_true_2.
Qed.

Section Handler.
Variable hashSync : string -> string -> string.
Variable jwt_sign : string -> string -> string -> Z -> string.

Local Abbreviation register := (completeRegistration hashSync jwt_sign).

(** The handler after validation. *)
Lemma completeRegistration_valid
    userId username password name phone telegram salt now users vs :
  allTruthy [userId; username; password; name; phone; telegram] = true ->
  register userId username password name phone telegram salt now users vs
  = if usernameTaken username users then inl conflict
    else match list_find (registrationMatch userId now) vs with
         | None => inl notFoundOrExpired
         | Some (i, v) =>
             let newUser :=
               {| u_id := userId; u_username := username;
                  u_password := hashSync password salt;
                  u_name := name; u_phone := phone; u_role := "student";
                  u_telegram := telegram; u_createdAt := now |} in
             inr ({| rr_message := "Ro'yxatdan muvaffaqiyatli o'tdingiz";
                     rr_token := jwt_sign userId username "student" now;
                     rr_user := {| pu_id := userId; pu_username := username;
                                   pu_name := name; pu_role := "student" |} |},
                  users ++ [newUser],
                  <[i := set_status completed v]> vs)
         end.
Proof.
  unfold allTruthy. cbn [forallb]. intros Hvalid.
  repeat (apply andb_prop in Hvalid as [? Hvalid]).
  unfold register, completeRegistration.
  repeat match goal with H : truthy _ = true |- _ => rewrite H; clear H end.
  cbn [negb orb]. fold (usernameTaken username users).
  destruct (usernameTaken username users); [done |].
  by destruct (list_find _ vs) as [[i v] |].
Qed.

(** What a successful request has found and written. *)
Lemma completeRegistration_inr
    userId username password name phone telegram salt now users vs
    reply users' vs' :
  register userId username password name phone telegram salt now users vs
  = inr (reply, users', vs') ->
  allTruthy [userId; username; password; name; phone; telegram] = true
  /\ exists i v newUser,
       vs !! i = Some v
       /\ registrationEligible userId now v
       /\ usernameTaken username users = false
       /\ users' = users ++ [newUser]
       /\ u_id newUser = v_userId v
       /\ u_username newUser = username
       /\ pu_id (rr_user reply) = v_userId v
       /\ vs' !! i = Some (set_status completed v)
       /\ length vs' = length vs
       /\ (forall j, j <> i -> vs' !! j = vs !! j).
Proof.
  intros Hrun.
  assert (Hvalid : allTruthy [userId; username; password; name; phone;
                              telegram] = true).
  { unfold register, completeRegistration in Hrun.
    unfold allTruthy. cbn [forallb].
    destruct (truthy userId), (truthy username), (truthy password),
      (truthy name), (truthy phone), (truthy telegram); done. }
  split; [done |]. rewrite completeRegistration_valid in Hrun by done.
  destruct (usernameTaken username users); [done |].
  destruct (list_find _ vs) as [[i v] |] eqn:Hfind; [| done].
  apply list_find_Some in Hfind as (Hi & Hm & _).
  apply registrationMatch_spec in Hm.
  injection Hrun as <- <- <-. eexists i, v, _.
  split_and!; try done.
  - cbn. by destruct Hm as [-> _].
  - cbn. by destruct Hm as [-> _].
  - apply list_lookup_insert_eq. by eapply lookup_lt_Some.
  - apply length_insert.
  - intros j Hne. by apply list_lookup_insert_ne.
Qed.

(** C6: a [complete-registration] request that passes validation is
    refused with the conflict error when the username is taken; when
    it is not, it is refused with the not-found-or-expired error if no
    step1-verified request of the user identifier is unexpired; and
    when it succeeds, [users.json] is the former collection with one
    record appended, whose [id] is the [userId] of the request that
    was matched, and that request, which was step1-verified and
    unexpired, has become completed, the other requests being left as
    they were. *)
Theorem complete_registration_outcomes
    (userId username password name phone telegram salt : string) (now : Z)
    (users : list User) (vs : list Verification) :
  allTruthy [userId; username; password; name; phone; telegram] = true ->
  (usernameTaken username users = true ->
     register userId username password name phone telegram salt now users vs
     = inl conflict)
  /\ (usernameTaken username users = false ->
      (forall v, v ∈ vs -> ~ registrationEligible userId now v) ->
      register userId username password name phone telegram salt now users vs
      = inl notFoundOrExpired)
  /\ (forall reply users' vs',
        register userId username password name phone telegram salt now users vs
        = inr (reply, users', vs') ->
        exists i v newUser,
          vs !! i = Some v
          /\ registrationEligible userId now v
          /\ usernameTaken username users = false
          /\ users' = users ++ [newUser]
          /\ u_id newUser = v_userId v
          /\ u_username newUser = username
          /\ pu_id (rr_user reply) = v_userId v
          /\ vs' !! i = Some (set_status completed v)
          /\ length vs' = length vs
          /\ (forall j, j <> i -> vs' !! j = vs !! j)).
Proof.
  intros Hvalid. split_and!.
  - intros Htaken. rewrite completeRegistration_valid by done.
    by rewrite Htaken.
  - intros Hfree Hnone. rewrite completeRegistration_valid by done.
    rewrite Hfree.
    destruct (list_find _ vs) as [[i v] |] eqn:Hfind; [| done].
    apply list_find_Some in Hfind as (Hi & Hm & _).
    apply registrationMatch_spec in Hm.
    exfalso. apply (Hnone v); [by eapply list_elem_of_lookup_2 | done].
  - intros reply users' vs' Hrun.
    by apply completeRegistration_inr in Hrun as [_ Hok].
Qed.

(** C5, as the code has it: once [complete-registration] has succeeded
    for a user identifier, a second request for that identifier is
    refused; with the conflict error when it asks for a username that
    is taken, which the username of the first request now is, so that
    the same request sent again gets the conflict error; and with the
    not-found-or-expired error when it asks for a free username and
    the identifier belongs to one request only. *)
Theorem complete_registration_twice
    (userId username password name phone telegram salt : string) (now : Z)
    (users users' : list User) (vs vs' : list Verification)
    (reply : RegistrationReply)
    (username2 password2 name2 phone2 telegram2 salt2 : string) (now2 : Z) :
  register userId username password name phone telegram salt now users vs
  = inr (reply, users', vs') ->
  allTruthy [userId; username2; password2; name2; phone2; telegram2] = true ->
  register userId username password name phone telegram salt2 now2 users' vs'
  = inl conflict
  /\ (usernameTaken username2 users' = true ->
      register userId username2 password2 name2 phone2 telegram2 salt2 now2
               users' vs'
      = inl conflict)
  /\ (usernameTaken username2 users' = false ->
      uniqueUserId userId vs ->
      register userId username2 password2 name2 phone2 telegram2 salt2 now2
               users' vs'
      = inl notFoundOrExpired).
Proof.
  intros Hfirst Hvalid2.
  apply completeRegistration_inr in Hfirst
    as (Hvalid & i & v & newUser & Hi & Hm & _ & -> & _ & Hname & _
        & Hi' & _ & Hrest).
  assert (Htaken : usernameTaken username (users ++ [newUser]) = true).
  { apply usernameTaken_spec. exists newUser.
    split; [| done]. apply elem_of_app. right. apply list_elem_of_here. }
  split_and!.
  - rewrite completeRegistration_valid by done. by rewrite Htaken.
  - intros Htaken2. rewrite completeRegistration_valid by done.
    by rewrite Htaken2.
  - intros Hfree Hunique. rewrite completeRegistration_valid by done.
    rewrite Hfree.
    destruct (list_find _ vs') as [[j w] |] eqn:Hfind; [| done].
    apply list_find_Some in Hfind as (Hj & Hw & _).
    apply registrationMatch_spec in Hw. destruct Hw as (Hwid & Hws & _).
    destruct (decide (j = i)) as [-> | Hne].
    + rewrite Hi' in Hj. injection Hj as <-. discriminate.
    + rewrite (Hrest j Hne) in Hj. destruct Hm as (Hvid & _).
      by specialize (Hunique _ _ _ _ Hj Hi Hwid Hvid).
Qed.

End Handler.

Lemma complete_registration_outcomes_witness :
  exists reply users' vs',
    completeRegistration hash sign "U0" "alice_t" "pw" "Alice"
      "+998900000000" "alice" "salt" 1000 [] [bob_pending; alice_verified]
    = inr (reply, users', vs')
    /\ vs' = [bob_pending; set_status completed alice_verified]
    /\ u_id <$> users' = ["U0"].
Proof.
  eexists _, _, _. split; [reflexivity |].
  destruct (complete_registration_outcomes hash sign "U0" "alice_t" "pw"
              "Alice" "+998900000000" "alice" "salt" 1000 []
              [bob_pending; alice_verified] eq_refl) as (_ & _ & Hok).
  destruct (Hok _ _ _ eq_refl)
    as (i & v & newUser & _ & (Hv & _) & _ & Husers & Hid & _).
  split; [reflexivity |].
  rewrite Husers. cbn. by rewrite Hid, Hv.
Defined.

Lemma complete_registration_twice_witness :
  exists reply users' vs',
    completeRegistration hash sign "U0" "alice_t" "pw" "Alice"
      "+998900000000" "alice" "salt" 1000 [] [bob_pending; alice_verified]
    = inr (reply, users', vs')
    /\ completeRegistration hash sign "U0" "alice_2" "pw" "Alice"
         "+998900000000" "alice" "salt" 2000 users' vs'
       = inl notFoundOrExpired.
Proof.
  eexists _, _, _. split; [reflexivity |].
  refine (proj2 (proj2 (complete_registration_twice hash sign
            "U0" "alice_t" "pw" "Alice" "+998900000000" "alice" "salt" 1000
            [] _ [bob_pending; alice_verified] _ _
            "alice_2" "pw" "Alice" "+998900000000" "alice" "salt" 2000
            eq_refl eq_refl)) eq_refl _).
  intros i j v w Hi Hj Hv Hw.
  destruct i as [| [| [| i]]], j as [| [| [| j]]];
    cbn in Hi, Hj; try done; simplify_eq; done.
Defined.

(** C5 as the specification words it fails: the request that succeeded,
    sent a second time, is refused because its username is now taken,
    and not because the registration is not found or has expired. *)
Lemma complete_registration_repeat_conflict :
  exists reply users' vs',
    completeRegistration hash sign "U0" "alice_t" "pw" "Alice"
      "+998900000000" "alice" "salt" 1000 [] [alice_verified]
    = inr (reply, users', vs')
    /\ completeRegistration hash sign "U0" "alice_t" "pw" "Alice"
         "+998900000000" "alice" "salt" 1000 users' vs'
       = inl conflict
    /\ conflict <> notFoundOrExpired.
Proof.
  eexists _, _, _. split; [reflexivity |]. split; [reflexivity | discriminate].
Qed.

End CompleteRegistrationFacts.

(** ** Grading one answer *)

Module GradeAnswerFacts.
Import JsString Results ResultsNotions ResultsSamples.
Local Open Scope list_scope.

Lemma strict_eq_eq (a b : value) : strict_eq a b = true -> a = b.
Proof.
  destruct a, b; cbn; try done.
  - by intros ->%Bool.eqb_prop.
  - by intros ->%Z.eqb_eq.
  - by intros ->%bool_decide_eq_true_1.
Qed.

Lemma includes_spec (items : list value) (x : value) :
  includes items x = true <-> exists y, y ∈ items /\ strict_eq y x = true.
Proof.
  unfold includes. rewrite existsb_exists.
  split; intros (y & Hy & Heq); exists y; by rewrite ?list_elem_of_In in *.
Qed.

Lemma includes_elem_of (items : list value) (x y : value) :
  y ∈ items -> strict_eq y x = true -> includes items x = true.
Proof. intros. apply includes_spec. eauto. Qed.

Lemma elem_of_correctIds (options : list Choice) (id : value) :
  id ∈ correctIds options
  <-> exists o, o ∈ options /\ o_correct o = true /\ id = o_id o.
Proof.
  unfold correctIds. rewrite list_elem_of_fmap. split.
  - intros (o & -> & [Hc Ho]%list_elem_of_filter). exists o.
    by apply Is_true_true in Hc.
  - intros (o & Ho & Hc & ->). exists o. split; [done |].
    apply list_elem_of_filter. by rewrite Is_true_true.
Qed.

Lemma elem_of_incorrectIds (options : list Choice) (id : value) :
  id ∈ incorrectIds options
  <-> exists o, o ∈ options /\ o_correct o = false /\ id = o_id o.
Proof.
  unfold incorrectIds. rewrite list_elem_of_fmap. split.
  - intros (o & -> & [Hc Ho]%list_elem_of_filter). exists o.
    apply Is_true_true, negb_true_iff in Hc. done.
  - intros (o & Ho & Hc & ->). exists o. split; [done |].
    apply list_elem_of_filter. by rewrite Is_true_true, negb_true_iff.
Qed.

(** The two conditions computed for a multiple-answer question. *)
Lemma gradeSelection_spec (options : list Choice) (selected : list value) :
  gradeSelection options selected = true
  <-> allCorrectSelected options selected
      /\ noIncorrectSelected options selected.
Proof.
  unfold gradeSelection, allCorrectSelected, noIncorrectSelected.
  fold (correctIds options). fold (incorrectIds options).
  rewrite andb_true_iff, forallb_forall, negb_true_iff.
  rewrite <- not_true_iff_false, existsb_exists.
  split; intros [Hall Hnone]; split.
  - intros id Hid. apply Hall. by apply list_elem_of_In.
  - intros id Hid. apply not_true_iff_false. intros Hin.
    apply Hnone. exists id. by rewrite <- list_elem_of_In.
  - intros id Hid. apply Hall. by apply list_elem_of_In.
  - intros (id & Hid & Hin). apply list_elem_of_In in Hid.
    by rewrite (Hnone id Hid) in Hin.
Qed.

Lemma sameSet_spec (selected ids : list value) :
  sameSet selected ids = true
  <-> (forall id, id ∈ ids -> includes selected id = true)
      /\ (forall id, id ∈ selected -> includes ids id = true).
Proof.
  unfold sameSet. rewrite andb_true_iff, !forallb_forall.
  split; intros [H1 H2]; split; intros id Hid.
  - apply H1. by apply list_elem_of_In.
  - apply H2. by apply list_elem_of_In.
  - apply H1. by apply list_elem_of_In.
  - apply H2. by apply list_elem_of_In.
Qed.

(** When the selection is made of option identifiers and no identifier
    is both correct and incorrect, the two conditions say that the
    selection and the correct options are the same set. *)
Lemma gradeSelection_sameSet (options : list Choice) (selected : list value) :
  selectionWithinOptions options selected ->
  unambiguousIds options ->
  gradeSelection options selected = sameSet selected (correctIds options).
Proof.
  intros Hwithin Hunamb. apply Bool.eq_true_iff_eq.
  rewrite gradeSelection_spec, sameSet_spec.
  unfold allCorrectSelected, noIncorrectSelected.
  split; intros [Hall Hother]; (split; [exact Hall |]); intros id Hid.
  - pose proof (Hwithin id Hid) as Hopt.
    apply includes_spec in Hopt as (y & Hy & Heq).
    apply list_elem_of_fmap in Hy as (o & -> & Ho).
    destruct (o_correct o) eqn:Hc.
    + eapply includes_elem_of; [| exact Heq].
      apply elem_of_correctIds. eauto.
    + assert (Hbad : includes (incorrectIds options) id = true).
      { eapply includes_elem_of; [| exact Heq].
        apply elem_of_incorrectIds. eauto. }
      by rewrite (Hother id Hid) in Hbad.
  - apply Hother in Hid. apply includes_spec in Hid as (z & Hz & Heq).
    apply strict_eq_eq in Heq as ->. by apply Hunamb.
Qed.

Lemma gradeAnswer_found (test : Test) (question : Question) (answer : Answer) :
  findQuestion test answer = Some question ->
  gradeAnswer test answer
  = match gradeQuestion question answer with
    | inl e => inl e
    | inr correct => inr {| ga_answer := answer; ga_correct := correct |}
    end.
Proof. unfold gradeAnswer. by intros ->. Qed.


(** C4, as the code has it: an answer with a [selectedOptions] array,
    matched to a multiple-answer question that has options, is graded
    correct exactly when the identifier of every option flagged correct
    is selected and no selected identifier is that of an option not
    flagged correct; a selected identifier that belongs to no option of
    the question is ignored.  When the selection is made of option
    identifiers of the question, and no identifier is shared by a
    correct and an incorrect option, this is: the selection and the
    correct options are the same set.  An empty selection is correct
    exactly when no option is flagged correct. *)
Theorem multiple_answer_grading
    (test : Test) (question : Question) (answer : Answer)
    (options : list Choice) (selected : list value) :
  findQuestion test answer = Some question ->
  q_type question = VStr "multiple-answer" ->
  q_options question = Some options ->
  a_selectedOptions answer = VArr selected ->
  exists correct : bool,
    gradeAnswer test answer
    = inr {| ga_answer := answer; ga_correct := correct |}
    /\ (correct = true
        <-> allCorrectSelected options selected
            /\ noIncorrectSelected options selected)
    /\ (selectionWithinOptions options selected -> unambiguousIds options ->
        correct = sameSet selected (correctIds options))
    /\ (selected = [] -> (correct = true <-> correctIds options = [])).
Proof.
  intros Hfind Htype Hopts Hsel.
  exists (gradeSelection options selected). split_and!.
  - rewrite (gradeAnswer_found _ _ _ Hfind). unfold gradeQuestion.
    by rewrite Htype, Hopts, Hsel.
  - apply gradeSelection_spec.
  - apply gradeSelection_sameSet.
  - intros ->. rewrite gradeSelection_spec.
    unfold allCorrectSelected, noIncorrectSelected. split.
    + intros [Hall _]. destruct (correctIds options) as [| id ids]; [done |].
      specialize (Hall id ltac:(apply list_elem_of_here)). done.
    + intros ->. split; intros id Hid; by apply elem_of_nil in Hid.
Qed.

Lemma multiple_answer_grading_witness :
  gradeAnswer quiz (select "q2" ["B"; "A"])
  = inr {| ga_answer := select "q2" ["B"; "A"]; ga_correct := true |}
  /\ gradeAnswer quiz (select "q2" ["A"])
     = inr {| ga_answer := select "q2" ["A"]; ga_correct := false |}
  /\ gradeAnswer quiz (select "q2" ["A"; "B"; "C"])
     = inr {| ga_answer := select "q2" ["A"; "B"; "C"]; ga_correct := false |}.
Proof.
  assert (Hwitness : forall ids : list string,
            selectionWithinOptions [optA; optB; optC] (VStr <$> ids) ->
            gradeAnswer quiz (select "q2" ids)
            = inr {| ga_answer := select "q2" ids;
                     ga_correct := sameSet (VStr <$> ids)
                                     (correctIds [optA; optB; optC]) |}).
  { intros ids Hwithin.
    destruct (multiple_answer_grading quiz q2 (select "q2" ids)
                [optA; optB; optC] (VStr <$> ids)
                eq_refl eq_refl eq_refl eq_refl)
      as (correct & -> & _ & Hset & _).
    rewrite Hset; [done | exact Hwithin |].
    intros id Hid. vm_compute in Hid.
    apply elem_of_cons in Hid as [-> | Hid]; [done |].
    apply elem_of_cons in Hid as [-> | Hid]; [done |].
    by apply elem_of_nil in Hid. }
  split_and!; rewrite Hwitness; try reflexivity;
    intros id Hid; cbn in Hid;
    repeat (apply elem_of_cons in Hid as [-> | Hid]; [done |]);
    by apply elem_of_nil in Hid.
Defined.

(** C4 as the specification words it fails: a selection made of the two
    correct options and of an identifier that names no option of the
    question is graded correct, though it is not the set of the correct
    options. *)
Lemma multiple_answer_foreign_id :
  gradeAnswer quiz (select "q2" ["A"; "B"; "Z"])
  = inr {| ga_answer := select "q2" ["A"; "B"; "Z"]; ga_correct := true |}
  /\ correctIds [optA; optB; optC] = [VStr "A"; VStr "B"]
  /\ sameSet [VStr "A"; VStr "B"; VStr "Z"] (correctIds [optA; optB; optC])
     = false.
Proof. split_and!; reflexivity. Qed.

(** C7: an answer whose [text] is a string, matched to a text question
    whose [correctAnswer] is a string, is graded correct exactly when
    the two strings are equal once trimmed and put in lower case. *)
Theorem text_grading
    (test : Test) (question : Question) (answer : Answer)
    (submitted expected : string) :
  findQuestion test answer = Some question ->
  q_type question = VStr "text" ->
  a_text answer = VStr submitted ->
  q_correctAnswer question = VStr expected ->
  exists correct : bool,
    gradeAnswer test answer
    = inr {| ga_answer := answer; ga_correct := correct |}
    /\ (correct = true
        <-> toLowerCase (trim submitted) = toLowerCase (trim expected)).
Proof.
  intros Hfind Htype Htext Hexpected.
  exists (bool_decide (toLowerCase (trim submitted)
                       = toLowerCase (trim expected))).
  split.
  - rewrite (gradeAnswer_found _ _ _ Hfind). unfold gradeQuestion.
    by rewrite Htype, Htext, Hexpected.
  - apply bool_decide_eq_true.
Qed.

Lemma text_grading_witness :
  gradeAnswer quiz (write "q3" " paris ")
  = inr {| ga_answer := write "q3" " paris "; ga_correct := true |}.
Proof.
  destruct (text_grading quiz q3 (write "q3" " paris ") " paris " "Paris"
              eq_refl eq_refl eq_refl eq_refl) as (correct & -> & Hiff).
  by rewrite (proj2 Hiff eq_refl).
Defined.

End GradeAnswerFacts.

(** ** Grading a submission *)

Module GradeFacts.
Import JsString Results ResultsNotions ResultsSamples GradeAnswerFacts.
Local Open Scope list_scope.

















End GradeFacts.


(** ** Sequences of requests *)

Module LifecycleFacts.
Import JsString Auth AuthNotions AuthSamples LifecycleNotions.
Local Open Scope list_scope.

Lemma set_status_same (v : Verification) : set_status (v_status v) v = v.
Proof. by destruct v. Qed.

Lemma forward_trans (s1 s2 s3 : Status) :
  forward s1 s2 -> forward s2 s3 -> forward s1 s3.
Proof.
  unfold forward. destruct s1, s2, s3; intuition congruence.
Qed.

Lemma evolves_refl (v : Verification) : evolves v v.
Proof. split; [by rewrite set_status_same | by left]. Qed.

Lemma evolves_trans (v1 v2 v3 : Verification) :
  evolves v1 v2 -> evolves v2 v3 -> evolves v1 v3.
Proof.
  intros [H12 F12] [H23 F23]. split; [| by eapply forward_trans].
  rewrite H23, H12. by destruct v1.
Qed.

Lemma evolves_set_status (s : Status) (v : Verification) :
  forward (v_status v) s -> evolves v (set_status s v).
Proof. intros Hf. split; [by destruct v | done]. Qed.

Lemma extends_refl (vs : list Verification) : extends vs vs.
Proof. intros i v Hi. exists v. split; [done | apply evolves_refl]. Qed.

Lemma extends_trans (vs1 vs2 vs3 : list Verification) :
  extends vs1 vs2 -> extends vs2 vs3 -> extends vs1 vs3.
Proof.
  intros H12 H23 i v Hi.
  destruct (H12 i v Hi) as (v2 & Hi2 & He2).
  destruct (H23 i v2 Hi2) as (v3 & Hi3 & He3).
  exists v3. split; [done | by eapply evolves_trans].
Qed.

(** Replacing a request by a later form of itself. *)
Lemma extends_insert (vs : list Verification) (i : nat) (v : Verification)
    (s : Status) :
  vs !! i = Some v -> forward (v_status v) s ->
  extends vs (<[i := set_status s v]> vs).
Proof.
  intros Hi Hf j w Hj. destruct (decide (j = i)) as [-> | Hne].
  - rewrite Hi in Hj. injection Hj as <-. exists (set_status s v).
    split; [| by apply evolves_set_status].
    apply list_lookup_insert_eq. by eapply lookup_lt_Some.
  - exists w. split; [| apply evolves_refl].
    by rewrite list_lookup_insert_ne.
Qed.

(** What a successful [verify-code-step1] has found and written. *)
Lemma verifyCodeStep1_inr telegram code userId now vs reply vs' :
  verifyCodeStep1 telegram code userId now vs = inr (reply, vs') ->
  allTruthy [telegram; code; userId] = true
  /\ exists i v,
       vs !! i = Some v
       /\ step1Eligible telegram code userId now v
       /\ (forall j w, vs !! j = Some w -> (j < i)%nat ->
             ~ step1Eligible telegram code userId now w)
       /\ vs' = <[i := set_status step1_verified v]> vs.
Proof.
  unfold verifyCodeStep1, allTruthy. cbn [forallb].
  destruct (truthy telegram), (truthy code), (truthy userId); try done.
  cbn [negb orb andb].
  destruct (list_find _ vs) as [[i v] |] eqn:Hfind; [| done].
  intros [= <- <-]. split; [done |].
  apply list_find_Some in Hfind as (Hi & Hm & Hleast).
  exists i, v. split_and!; try done.
  - by apply VerifyCodeFacts.step1Match_spec.
  - intros j w Hj Hlt Hw. apply (Hleast j w Hj Hlt).
    by apply VerifyCodeFacts.step1Match_spec.
Qed.


Section Requests.

Variable hashSync : string -> string -> string.
Variable jwt_sign : string -> string -> string -> Z -> string.

Lemma served_extends (before after : list User * list Verification) :
  served hashSync jwt_sign before after ->
  extends before.2 after.2 /\ before.1 `prefix_of` after.1.
Proof.
  intros [telegram name phone random uuid1 uuid2 now users vs reply vs' Hrun
         | telegram code userId now users vs reply vs' Hrun
         | userId username password name phone telegram salt now users vs
             reply users' vs' Hrun]; cbn.
  - split; [| done].
    apply SendCodeFacts.sendCode_inr in Hrun as (_ & _ & ->).
    intros i v Hi.
    exists (expireExisting (cleanTelegram telegram) v). split.
    + rewrite lookup_app_l.
      * by rewrite list_lookup_fmap, Hi.
      * rewrite length_fmap. by eapply lookup_lt_Some.
    + unfold expireExisting.
      destruct (bool_decide (toLowerCase (v_telegram v) = _)); cbn;
        [| apply evolves_refl].
      destruct (bool_decide (v_status v = pending)) eqn:Hp; cbn;
        [| apply evolves_refl].
      apply evolves_set_status. right. left.
      by apply bool_decide_eq_true_1 in Hp.
  - split; [| done].
    apply verifyCodeStep1_inr in Hrun as (_ & i & v & Hi & Hv & _ & ->).
    apply extends_insert; [done |]. right. left. by destruct Hv as (_ & _ & ? & _).
  - apply CompleteRegistrationFacts.completeRegistration_inr in Hrun
      as (_ & i & v & newUser & Hi & Hv & _ & -> & _ & _ & _ & Hi' & Hlen & Hrest).
    split; [| by apply prefix_app_r].
    intros j w Hj. destruct (decide (j = i)) as [-> | Hne].
    + rewrite Hi in Hj. injection Hj as <-. exists (set_status completed v).
      split; [done |]. apply evolves_set_status. right. right.
      by destruct Hv as (_ & ? & _).
    + exists w. rewrite (Hrest j Hne). split; [done | apply evolves_refl].
Qed.

(** X1: over any sequence of successful requests to [send-code],
    [verify-code-step1] and [complete-registration], no verification
    request is removed or moved, no field of a request other than its
    status changes, and a status only moves forward: an expired or a
    completed request stays as it is, and a step1-verified one can only
    become completed.  No user is removed or changed either. *)
Theorem requests_move_forward
    (users users' : list User) (vs vs' : list Verification) :
  rtc (served hashSync jwt_sign) (users, vs) (users', vs') ->
  extends vs vs'
  /\ users `prefix_of` users'
  /\ (forall i v, vs !! i = Some v ->
        v_status v = expired \/ v_status v = completed ->
        vs' !! i = Some v)
  /\ (forall i v v', vs !! i = Some v -> vs' !! i = Some v' ->
        v_status v = step1_verified ->
        v_status v' = step1_verified \/ v_status v' = completed).
Proof.
  intros Hrun.
  assert (Hext : extends vs vs' /\ users `prefix_of` users').
  { remember (users, vs) as before eqn:Hb.
    remember (users', vs') as after eqn:Ha.
    revert users vs Hb. induction Hrun as [state | s1 s2 s3 Hstep _ IH];
      intros users vs ->.
    - injection Ha as -> ->. split; [apply extends_refl | done].
    - subst s3. destruct s2 as [users2 vs2].
      apply served_extends in Hstep as [He Hp]. cbn in He, Hp.
      destruct (IH eq_refl users2 vs2 eq_refl) as [He' Hp'].
      split; [by eapply extends_trans | by etrans]. }
  destruct Hext as [Hext Hpre]. split_and!; try done.
  - intros i v Hi Hterminal.
    destruct (Hext i v Hi) as (v' & Hi' & Heq & Hf). rewrite Hi'. f_equal.
    rewrite Heq.
    destruct Hf as [<- | [Hp | [Hs _]]]; [by rewrite set_status_same | |];
      destruct Hterminal; congruence.
  - intros i v v' Hi Hi' Hs.
    destruct (Hext i v Hi) as (w & Hw & _ & Hf).
    rewrite Hi' in Hw. injection Hw as <-.
    destruct Hf as [<- | [Hp | [_ ->]]]; [by left | congruence | by right].
Qed.

End Requests.

Lemma requests_move_forward_witness :
  exists vs',
    rtc (served hash sign) ([], [alice_pending; bob_pending]) ([], vs')
    /\ vs' !! 1%nat = Some (set_status step1_verified bob_pending)
    /\ extends [alice_pending; bob_pending] vs'.
Proof.
  assert (Hrun : rtc (served hash sign) ([], [alice_pending; bob_pending])
                     ([], [set_status expired alice_pending;
                           set_status step1_verified bob_pending;
                           newVerification "U9" "V9" "alice" "Alice"
                             "+998900000000" (1 # 2) 1000])).
  { eapply rtc_l.
    - eapply (served_sendCode _ _ "@alice" "Alice" "+998900000000" (1 # 2)
                "U9" "V9" 1000). reflexivity.
    - eapply rtc_l; [| apply rtc_refl].
      eapply (served_verifyCodeStep1 _ _ "bob" "654321" "U2" 2000).
      reflexivity. }
  eexists. split; [exact Hrun |].
  split; [reflexivity |].
  exact (proj1 (requests_move_forward hash sign _ _ _ _ Hrun)).
Defined.

End LifecycleFacts.


(** ** From the code issued to the account *)

Module PipelineFacts.
Import JsString Auth AuthNotions AuthSamples LifecycleNotions Bot.
Local Open Scope list_scope.



Lemma cleanTelegram_truthy (telegram : string) :
  truthy (cleanTelegram telegram) = true -> truthy telegram = true.
Proof. by destruct telegram. Qed.


Lemma expireExisting_telegram (clean : string) (v : Verification) :
  v_telegram (expireExisting clean v) = v_telegram v.
Proof. unfold expireExisting. by destruct (_ && _). Qed.

(** A request left pending by the [forEach] has another user name. *)
Lemma expireExisting_pending (clean : string) (v : Verification) :
  v_status (expireExisting clean v) = pending ->
  toLowerCase (v_telegram v) <> toLowerCase clean.
Proof.
  unfold expireExisting. intros Hp Heq.
  rewrite (bool_decide_eq_true_2 _ Heq) in Hp. cbn in Hp.
  destruct (bool_decide (v_status v = pending)) eqn:Hs; cbn in Hp; [done |].
  by apply bool_decide_eq_false_1 in Hs.
Qed.

Lemma lookup_expired (clean : string) (vs : list Verification)
    (new : Verification) (j : nat) (w : Verification) :
  ((expireExisting clean <$> vs) ++ [new]) !! j = Some w ->
  (j < length vs)%nat ->
  exists v, v ∈ vs /\ w = expireExisting clean v.
Proof.
  intros Hj Hlt. rewrite lookup_app_l in Hj by by rewrite length_fmap.
  rewrite list_lookup_fmap in Hj.
  destruct (vs !! j) as [v |] eqn:Hv; [| done]. injection Hj as <-.
  exists v. split; [by eapply list_elem_of_lookup_2 | done].
Qed.

Section Registration.

Variable hashSync : string -> string -> string.
Variable jwt_sign : string -> string -> string -> Z -> string.


End Registration.


(** X3: a code is confirmed once.  After a successful
    [verify-code-step1], the same request sent again, at any time, gets
    the not-found-or-expired error, when the user identifier belongs to
    one stored request only. *)
Theorem step1_confirms_once
    (telegram code userId : string) (now now2 : Z)
    (vs vs' : list Verification) (reply : string) :
  verifyCodeStep1 telegram code userId now vs = inr (reply, vs') ->
  uniqueUserId userId vs ->
  verifyCodeStep1 telegram code userId now2 vs'
  = inl (NotFoundOrExpired "Noto'g'ri yoki muddati o'tgan tasdiqlash kodi").
Proof.
  intros Hrun Hunique.
  apply LifecycleFacts.verifyCodeStep1_inr in Hrun
    as (Hvalid & i & v & Hi & Hv & _ & ->).
  unfold allTruthy in Hvalid. cbn [forallb] in Hvalid.
  repeat (apply andb_prop in Hvalid as [? Hvalid]).
  unfold verifyCodeStep1.
  repeat match goal with H : truthy _ = true |- _ => rewrite H; clear H end.
  cbn [negb orb].
  assert (Hnone : list_find (step1Match telegram code userId now2)
                    (<[i := set_status step1_verified v]> vs) = None).
  { apply list_find_None, Forall_lookup. intros j w Hj Hw.
    apply VerifyCodeFacts.step1Match_spec in Hw.
    unfold step1Eligible in Hw, Hv.
    destruct Hw as (_ & _ & Hs & Hid & _). destruct Hv as (_ & _ & _ & Hvid & _).
    destruct (decide (j = i)) as [-> | Hne].
    - rewrite list_lookup_insert_eq in Hj by by eapply lookup_lt_Some.
      injection Hj as <-. done.
    - rewrite list_lookup_insert_ne in Hj by done.
      by specialize (Hunique _ _ _ _ Hj Hi Hid Hvid). }
  by rewrite Hnone.
Qed.

Lemma step1_confirms_once_witness :
  verifyCodeStep1 "bob" "654321" "U2" 5000
    [alice_pending; set_status step1_verified bob_pending]
  = inl (NotFoundOrExpired "Noto'g'ri yoki muddati o'tgan tasdiqlash kodi").
Proof.
  apply (step1_confirms_once "bob" "654321" "U2" 2000 5000
           [alice_pending; bob_pending] _
           "Kod tasdiqlandi. Endi tizimga kirish ma'lumotlarini yarating.").
  - reflexivity.
  - intros i j v w Hi Hj Hv Hw.
    destruct i as [| [| i]], j as [| [| j]];
      cbn in Hi, Hj; try done; simplify_eq; done.
Defined.

Lemma toLowerCase_empty (s : string) : toLowerCase s = "" -> s = "".
Proof. by destruct s. Qed.

Lemma lowerChar_at (c : ascii) : lowerChar c = "@"%char -> c = "@"%char.
Proof.
  destruct c as [[] [] [] [] [] [] [] []]; vm_compute; intros H;
    first [reflexivity | discriminate H].
Qed.

Lemma toLowerCase_at (s x : string) :
  toLowerCase s = ("@" ++ x)%string -> startsWith s "@" = true.
Proof.
  destruct s as [| c s]; [done |]. cbn. intros [= Hc _].
  apply lowerChar_at in Hc as ->. by apply bool_decide_eq_true_2.
Qed.

Lemma pendingMatch_spec (username : string) (now : Z) (v : Verification) :
  pendingMatch username now v
  <-> (toLowerCase (v_telegram v) = toLowerCase username
       \/ toLowerCase (v_telegram v) = ("@" ++ toLowerCase username)%string)
      /\ v_status v = pending /\ now < v_expiresAt v.
Proof.
  unfold pendingMatch, unexpired.
  rewrite !andb_True, orb_True, !bool_decide_spec, Is_true_true, Z.ltb_lt.
  tauto.
Qed.

(** X4: the handle [@].  [send-code] accepts it and stores a request
    whose user name is empty; a request whose user name is empty is never
    changed by [verify-code-step1], whatever the request body; and a code
    delivered by the bot is that of a request whose user name is not
    empty.  The code of such a request can thus be neither obtained nor
    confirmed. *)
Theorem at_sign_handle_is_dead :
  (forall (name phone : string) (random : Q) (uuid1 uuid2 : string) (now : Z)
          (vs : list Verification),
     allTruthy [name; phone] = true ->
     exists reply vs' new,
       sendCode "@" name phone random uuid1 uuid2 now vs = inr (reply, vs')
       /\ vs' !! length vs = Some new
       /\ v_telegram new = "" /\ v_status new = pending)
  /\ (forall (telegram code userId : string) (now : Z)
             (vs vs' : list Verification) (reply : string)
             (i : nat) (v : Verification),
        verifyCodeStep1 telegram code userId now vs = inr (reply, vs') ->
        vs !! i = Some v -> v_telegram v = "" ->
        vs' !! i = Some v)
  /\ (forall (username : string) (chatId : Z) (uuid : string) (now : Z)
             (vs : list Verification) (ns ns' : list Notification)
             (code : string),
        checkPendingVerification username chatId uuid now vs ns
        = (Some (CodeReply code), ns') ->
        exists v, v ∈ vs /\ v_code v = code /\ v_telegram v <> "").
Proof.
  split_and!.
  - intros name phone random uuid1 uuid2 now vs Hvalid.
    eexists _, _, (newVerification uuid1 uuid2 "" name phone random now).
    split.
    + apply SendCodeFacts.sendCode_valid.
      unfold allTruthy in *. by cbn [forallb truthy andb] in *.
    + split_and!; [| reflexivity | reflexivity].
      rewrite lookup_app_r by by rewrite length_fmap.
      by rewrite length_fmap, Nat.sub_diag.
  - intros telegram code userId now vs vs' reply i v Hrun Hi Hempty.
    apply LifecycleFacts.verifyCodeStep1_inr in Hrun
      as (Hvalid & j & w & Hj & Hw & _ & ->).
    unfold allTruthy in Hvalid. cbn [forallb] in Hvalid.
    apply andb_prop in Hvalid as [Ht _].
    destruct (decide (i = j)) as [-> | Hne].
    + rewrite Hi in Hj. injection Hj as <-. unfold step1Eligible in Hw.
      destruct Hw as (Hw & _). rewrite Hempty in Hw. by subst telegram.
    + by rewrite list_lookup_insert_ne.
  - intros username chatId uuid now vs ns ns' code.
    unfold checkPendingVerification.
    destruct (truthy username) eqn:Hu; [| done]. cbn [negb].
    destruct (list_find _ vs) as [[i v] |] eqn:Hfind; [| done].
    intros [= <- _]. apply list_find_Some in Hfind as (Hi & Hm & _).
    exists v. split_and!; [by eapply list_elem_of_lookup_2 | done |].
    intros Hempty. apply pendingMatch_spec in Hm as ([Hm | Hm] & _);
      rewrite Hempty in Hm; [| done].
    symmetry in Hm. apply toLowerCase_empty in Hm. by subst username.
Qed.

Lemma at_sign_handle_is_dead_witness :
  exists reply vs',
    sendCode "@" "Alice" "+998900000000" (1 # 2) "U9" "V9" 1000 [bob_pending]
    = inr (reply, vs')
    /\ v_telegram <$> vs' !! 1%nat = Some "".
Proof.
  destruct at_sign_handle_is_dead as (Hsend & _ & _).
  destruct (Hsend "Alice" "+998900000000" (1 # 2) "U9" "V9" 1000 [bob_pending]
              eq_refl) as (reply & vs' & new & Hrun & Hnew & Hempty & _).
  exists reply, vs'. split; [exact Hrun |].
  cbn in Hnew. by rewrite Hnew, <- Hempty.
Defined.

(** X5: the code issued is the code delivered.  After a [send-code]
    request for a handle that is not empty once its [@] is removed, on a
    collection none of whose user names starts with [@], the bot asked
    within thirty minutes by the Telegram user of that name, whatever the
    case of its letters, answers with the code just generated, and logs a
    notification, marked sent, for the user identifier replied by
    [send-code]. *)
Theorem issued_code_is_delivered
    (telegram name phone : string) (random : Q) (uuid1 uuid2 : string)
    (now : Z) (vs : list Verification)
    (username : string) (chatId : Z) (uuid : string) (now' : Z)
    (ns : list Notification) :
  allTruthy [cleanTelegram telegram; name; phone] = true ->
  noAtHandles vs ->
  toLowerCase username = toLowerCase (cleanTelegram telegram) ->
  now' < now + 30 * 60 * 1000 ->
  exists reply vs',
    sendCode telegram name phone random uuid1 uuid2 now vs = inr (reply, vs')
    /\ checkPendingVerification username chatId uuid now' vs' ns
       = (Some (CodeReply (generateCode random)),
          logNotification (sc_userId reply) username (generateCode random)
            chatId uuid now' ns).
Proof.
  unfold allTruthy. cbn [forallb]. intros Hvalid Hno Hname Hnow.
  repeat (apply andb_prop in Hvalid as [? Hvalid]).
  set (clean := cleanTelegram telegram) in *.
  set (new := newVerification uuid1 uuid2 clean name phone random now).
  eexists _, _. split.
  { apply SendCodeFacts.sendCode_valid. unfold allTruthy. cbn [forallb].
    rewrite (cleanTelegram_truthy telegram) by done.
    by repeat (apply andb_true_intro; split). }
  unfold checkPendingVerification.
  assert (Hu : truthy username = true).
  { destruct username; [| done]. symmetry in Hname.
    apply toLowerCase_empty in Hname. fold clean in Hname.
    by rewrite Hname in *. }
  rewrite Hu. cbn [negb]. fold clean. fold new.
  assert (Hfind : list_find (pendingMatch username now')
                    ((expireExisting clean <$> vs) ++ [new])
                  = Some (length vs, new)).
  { apply list_find_Some. split_and!.
    - rewrite lookup_app_r by by rewrite length_fmap.
      by rewrite length_fmap, Nat.sub_diag.
    - apply pendingMatch_spec. unfold new.
      cbn [v_telegram v_status v_expiresAt newVerification].
      split_and!; [by left | done | lia].
    - intros j w Hj Hlt Hw.
      destruct (lookup_expired _ _ _ _ _ Hj Hlt) as (v & Hv & ->).
      apply pendingMatch_spec in Hw as ([Hm | Hm] & Hs & _);
        rewrite expireExisting_telegram in Hm.
      + apply expireExisting_pending in Hs. congruence.
      + apply toLowerCase_at in Hm. by rewrite (Hno v Hv) in Hm. }
  by rewrite Hfind.
Qed.

Lemma issued_code_is_delivered_witness :
  exists reply vs',
    sendCode "@Alice" "Alice" "+998900000000" (1 # 2) "U9" "V9" 1000
             [alice_pending; bob_pending] = inr (reply, vs')
    /\ (checkPendingVerification "alice" 77 "N1" 2000 vs' []).1
       = Some (CodeReply "550000").
Proof.
  destruct (issued_code_is_delivered "@Alice" "Alice" "+998900000000" (1 # 2)
              "U9" "V9" 1000 [alice_pending; bob_pending] "alice" 77 "N1" 2000
              []) as (reply & vs' & Hsend & Hbot).
  - reflexivity.
  - intros v Hv.
    apply elem_of_cons in Hv as [-> | Hv]; [done |].
    apply elem_of_cons in Hv as [-> | Hv]; [done |].
    by apply elem_of_nil in Hv.
  - reflexivity.
  - lia.
  - exists reply, vs'. split; [exact Hsend |]. by rewrite Hbot.
Defined.

(** X6: the code delivered can be confirmed.  When the bot answers with
    a code, that code is the code of a stored request which is pending
    and unexpired, the notification logged carries the user identifier of
    that request, and [verify-code-step1] made at that instant with the
    user name as it is stored, that code and that user identifier
    succeeds, provided the user identifier is not empty. *)
Theorem delivered_code_is_confirmable
    (username : string) (chatId : Z) (uuid : string) (now : Z)
    (vs : list Verification) (ns ns' : list Notification) (code : string) :
  checkPendingVerification username chatId uuid now vs ns
  = (Some (CodeReply code), ns') ->
  exists v,
    v ∈ vs /\ v_code v = code /\ v_status v = pending /\ now < v_expiresAt v
    /\ ns' = logNotification (v_userId v) username code chatId uuid now ns
    /\ (allTruthy [v_telegram v; code; v_userId v] = true ->
        exists reply vs',
          verifyCodeStep1 (v_telegram v) code (v_userId v) now vs
          = inr (reply, vs')).
Proof.
  unfold checkPendingVerification.
  destruct (truthy username) eqn:Hu; [| done]. cbn [negb].
  destruct (list_find _ vs) as [[i v] |] eqn:Hfind; [| done].
  intros [= <- <-]. apply list_find_Some in Hfind as (Hi & Hm & _).
  apply pendingMatch_spec in Hm as (_ & Hs & Hnow).
  exists v. split_and!; try done; [by eapply list_elem_of_lookup_2 |].
  intros Hvalid. unfold allTruthy in Hvalid. cbn [forallb] in Hvalid.
  repeat (apply andb_prop in Hvalid as [? Hvalid]).
  unfold verifyCodeStep1.
  repeat match goal with H : truthy _ = true |- _ => rewrite H; clear H end.
  cbn [negb orb].
  destruct (list_find _ vs) as [[j w] |] eqn:Hfind; [eauto |].
  apply list_find_None in Hfind. rewrite Forall_forall in Hfind.
  exfalso. apply (Hfind v); [by eapply list_elem_of_lookup_2 |].
  by apply VerifyCodeFacts.step1Match_spec.
Qed.

Lemma delivered_code_is_confirmable_witness :
  exists reply vs',
    verifyCodeStep1 "bob" "654321" "U2" 2000 [alice_pending; bob_pending]
    = inr (reply, vs').
Proof.
  destruct (delivered_code_is_confirmable "BOB" 77 "N1" 2000
              [alice_pending; bob_pending] [] _ "654321" eq_refl)
    as (v & Hv & Hcode & _ & _ & _ & Hconfirm).
  apply elem_of_cons in Hv as [-> | Hv]; [done |].
  apply elem_of_cons in Hv as [-> | Hv]; [| by apply elem_of_nil in Hv].
  by apply Hconfirm.
Defined.

End PipelineFacts.


(** ** Notifications *)

Module BotFacts.
Import JsString Auth AuthSamples Bot.
Local Open Scope list_scope.

Lemma replay_marks (now : Z) (ns : list Notification) :
  Forall (fun n => n_sent n = true)
    ((fun n => if negb (n_sent n) then markSent now n else n) <$> ns).
Proof.
  apply Forall_fmap, Forall_forall. intros n _. cbn.
  by destruct (n_sent n) eqn:Hs.
Qed.

Lemma replay_sent_fixed (now : Z) (ns : list Notification) :
  Forall (fun n => n_sent n = true) ns ->
  filter (fun n => negb (n_sent n)) ns = []
  /\ (fun n => if negb (n_sent n) then markSent now n else n) <$> ns = ns.
Proof.
  induction 1 as [| n ns Hn _ [IH1 IH2]]; [done |].
  rewrite filter_cons_False by (rewrite Hn; intros []).
  split; [done |]. cbn. by rewrite Hn, IH2.
Qed.

(** X7: the replay of [sendPendingNotifications] delivers each unsent
    notification once.  One run sends one message for each notification
    that was not marked sent, in the order of the collection, with the
    text of the notification, keeps the notifications that were sent as
    they are, and leaves every notification marked sent; a later run, at
    any time, sends nothing and leaves the collection as it is. *)
Theorem replay_delivers_once (now now2 : Z) (ns : list Notification) :
  let run := sendPendingNotifications now ns in
  m_text <$> run.1 = n_message <$> filter (fun n => negb (n_sent n)) ns
  /\ length run.2 = length ns
  /\ Forall (fun n => n_sent n = true) run.2
  /\ (forall i n, ns !! i = Some n -> n_sent n = true -> run.2 !! i = Some n)
  /\ sendPendingNotifications now2 run.2 = ([], run.2).
Proof.
  destruct ns as [| n ns]; [by repeat split |].
  cbn zeta. unfold sendPendingNotifications. cbn [fst snd].
  set (all := n :: ns).
  set (marked := (fun n => if negb (n_sent n) then markSent now n else n) <$> all).
  pose proof (replay_marks now all) as Hsent. fold marked in Hsent.
  split_and!.
  - rewrite <- list_fmap_compose. apply list_fmap_ext. intros _ m _. cbn.
    unfold messageFor. destruct (n_chatId m); [| done].
    by destruct (hasChatId m).
  - apply length_fmap.
  - exact Hsent.
  - intros i m Hi Hm. unfold marked. rewrite list_lookup_fmap, Hi. cbn.
    by rewrite Hm.
  - destruct (replay_sent_fixed now2 marked Hsent) as [Hnone Hfixed].
    destruct marked as [| m marked'] eqn:Hmarked; [done |].
    rewrite Hnone, Hfixed. done.
Qed.

Lemma replay_delivers_once_witness :
  let shown :=
    {| n_id := "N1"; n_userId := "U1"; n_telegram := "alice";
       n_message := "Verification code sent: 123456"; n_chatId := Some 77;
       n_createdAt := 1000; n_sent := true; n_sentAt := Some 1000 |} in
  let waiting :=
    {| n_id := "N2"; n_userId := "U2"; n_telegram := "@bob";
       n_message := "Natijangiz tayyor"; n_chatId := None;
       n_createdAt := 1500; n_sent := false; n_sentAt := None |} in
  (sendPendingNotifications 2000 [shown; waiting]).2 !! 0%nat = Some shown
  /\ (sendPendingNotifications 2000 [shown; waiting]).1
     = [{| m_chat := inr "bob"; m_text := "Natijangiz tayyor" |}].
Proof.
  intros shown waiting.
  destruct (replay_delivers_once 2000 3000 [shown; waiting])
    as (_ & _ & _ & Hkept & _).
  split; [by apply Hkept | reflexivity].
Defined.

(** X8: the notification logged when the bot delivers a code is never
    replayed: after [checkPendingVerification], whatever it answered,
    [sendPendingNotifications] sends the messages it would have sent
    before it, and no other. *)
Theorem logged_delivery_is_not_replayed
    (username : string) (chatId : Z) (uuid : string) (now now2 : Z)
    (vs : list Verification) (ns : list Notification) :
  (sendPendingNotifications now2
     (checkPendingVerification username chatId uuid now vs ns).2).1
  = (sendPendingNotifications now2 ns).1.
Proof.
  unfold checkPendingVerification.
  destruct (truthy username); [| done]. cbn [negb].
  destruct (list_find _ vs) as [[i v] |]; [| done]. cbn [snd].
  unfold logNotification, sendPendingNotifications.
  destruct ns as [| n ns]; [done |].
  cbn [app fst]. rewrite app_comm_cons, filter_app.
  rewrite (filter_cons_False _ _ []) by (cbn; tauto).
  by rewrite filter_nil, app_nil_r.
Qed.








Example formatTime_125 : formatTime 125 = "2:05".
Proof. reflexivity. Qed.

End BotFacts.


(** ** Accounts *)

Module LoginFacts.
Import JsString Auth AuthNotions AuthSamples LifecycleNotions Login.
Local Open Scope list_scope.


Lemma find_username_new (username : string) (users : list User) (newUser : User) :
  usernameTaken username users = false ->
  u_username newUser = username ->
  find (fun u => bool_decide (u_username u = username)) (users ++ [newUser])
  = Some newUser.
Proof.
  intros Hfree Hname. induction users as [| u users IH]; cbn.
  - by rewrite bool_decide_eq_true_2.
  - cbn in Hfree. apply orb_false_elim in Hfree as [Hu Hfree].
    rewrite Hu. by apply IH.
Qed.

Section Accounts.

Variable hashSync : string -> string -> string.
Variable compareSync : string -> string -> bool.
Variable jwt_sign : string -> string -> string -> Z -> string.


(** X11: a registered user can sign in.  After a successful
    [complete-registration], [login] with the same user name and
    password succeeds, when [bcrypt.compareSync] accepts the password
    against the hash [bcrypt.hashSync] made of it: it replies with the
    user that the registration replied with, whose [id] is the user
    identifier of the registration. *)
Theorem registered_user_can_login
    (userId username password name phone telegram salt : string) (now now2 : Z)
    (users users' : list User) (vs vs' : list Verification)
    (reply : RegistrationReply) :
  completeRegistration hashSync jwt_sign userId username password name phone
    telegram salt now users vs = inr (reply, users', vs') ->
  compareSync password (hashSync password salt) = true ->
  exists loginReply,
    login compareSync jwt_sign username password now2 users' = inr loginReply
    /\ lr_user loginReply = rr_user reply
    /\ pu_id (lr_user loginReply) = userId.
Proof.
  intros Hrun Hbcrypt.
  pose proof Hrun as Hok.
  apply CompleteRegistrationFacts.completeRegistration_inr in Hok
    as (Hvalid & i & v & newUser & _ & _ & Hfree & _).
  rewrite CompleteRegistrationFacts.completeRegistration_valid in Hrun by done.
  rewrite Hfree in Hrun.
  destruct (list_find _ vs) as [[j w] |]; [| done].
  injection Hrun as <- <- <-.
  unfold allTruthy in Hvalid. cbn [forallb] in Hvalid.
  repeat (apply andb_prop in Hvalid as [? Hvalid]).
  unfold login.
  repeat match goal with H : truthy _ = true |- _ => rewrite H; clear H end.
  cbn [negb orb]. rewrite (find_username_new username users _ Hfree) by done.
  cbn [u_password]. rewrite Hbcrypt. eauto.
Qed.

End Accounts.


Lemma registered_user_can_login_witness :
  exists loginReply,
    login (fun password hashed => bool_decide (hashed = hash password "salt"))
      sign "alice_t" "pw" 5000
      [{| u_id := "U0"; u_username := "alice_t"; u_password := "saltpw";
          u_name := "Alice"; u_phone := "+998900000000"; u_role := "student";
          u_telegram := "alice"; u_createdAt := 1000 |}]
    = inr loginReply
    /\ pu_id (lr_user loginReply) = "U0".
Proof.
  destruct (registered_user_can_login hash
              (fun password hashed => bool_decide (hashed = hash password "salt"))
              sign "U0" "alice_t" "pw" "Alice" "+998900000000" "alice" "salt"
              1000 5000 [] _ [alice_verified] _ _ eq_refl)
    as (loginReply & Hlogin & _ & Hid).
  - by vm_compute.
  - by exists loginReply.
Defined.

End LoginFacts.


(** ** Imported questions *)

Module TestParserFacts.
Import JsString TestParser StoreNotions.
Local Open Scope list_scope.

Lemma pushCurrent_acc (questions : list ParsedQuestion)
    (currentQuestion : option ParsedQuestion) :
  pushCurrent questions currentQuestion
  = questions ++ pushCurrent [] currentQuestion.
Proof. destruct currentQuestion; cbn; [done | by rewrite app_nil_r]. Qed.

(** The questions already pushed are a prefix of the result. *)
Lemma parseLines_acc (clock : nat -> Z) (i : nat) (lines : list string)
    (questions : list ParsedQuestion) (currentQuestion : option ParsedQuestion) :
  parseLines clock i lines questions currentQuestion
  = questions ++ parseLines clock i lines [] currentQuestion.
Proof.
  revert i questions currentQuestion.
  induction lines as [| line rest IH]; intros i questions currentQuestion.
  - apply pushCurrent_acc.
  - cbn [parseLines]. destruct (negb (truthy line)); [apply IH |].
    destruct (startsWith line "#").
    + rewrite IH, (IH _ (pushCurrent [] currentQuestion)).
      by rewrite (pushCurrent_acc questions), app_assoc.
    + destruct currentQuestion as [q |]; [| apply IH].
      destruct (startsWith line "@"); [apply IH |].
      destruct (startsWith line "+" || startsWith line "-"); apply IH.
Qed.

Lemma startsWith_truthy (line : string) (c : ascii) :
  startsWith line c = true -> truthy line = true.
Proof. by destruct line. Qed.

Lemma startsWith_other (line : string) (c c' : ascii) :
  startsWith line c = true -> c <> c' -> startsWith line c' = false.
Proof.
  destruct line as [| c0 line]; [done |]. cbn.
  intros ->%bool_decide_eq_true_1 Hne. by apply bool_decide_eq_false_2.
Qed.

(** X12: the questions of an imported file are its headings.  The texts
    of the questions returned by [parseTestFile] are, in order, the texts
    that follow the [#] of the lines which, once trimmed, start with
    [#]; every question has the type [multiple-choice], whatever the
    number of its options flagged correct; a file without such a line
    gives no question. *)
Theorem parseTestFile_headings (clock : nat -> Z) (fileContent : string) :
  let lines := trim <$> splitLines fileContent in
  let questions := parseTestFile clock fileContent in
  pq_text <$> questions
  = (fun line => trim (substring1 line)) <$> filter isHeading lines
  /\ length questions = length (filter isHeading lines)
  /\ Forall (fun q => pq_type q = "multiple-choice") questions
  /\ (filter isHeading lines = [] -> questions = []).
Proof.
  cbn zeta. unfold parseTestFile.
  set (lines := trim <$> splitLines fileContent).
  assert (Hgen : forall i currentQuestion,
            (forall q, currentQuestion = Some q ->
                       pq_type q = "multiple-choice") ->
            pq_text <$> parseLines clock i lines [] currentQuestion
            = (pq_text <$> pushCurrent [] currentQuestion)
              ++ ((fun line => trim (substring1 line))
                    <$> filter isHeading lines)
            /\ Forall (fun q => pq_type q = "multiple-choice")
                 (parseLines clock i lines [] currentQuestion)).
  { clearbody lines. induction lines as [| line rest IH];
      intros i currentQuestion Htype.
    - cbn [parseLines]. rewrite filter_nil, app_nil_r. split; [done |].
      destruct currentQuestion as [q |]; cbn; [| done].
      constructor; [by apply Htype | done].
    - cbn [parseLines]. destruct (truthy line) eqn:Ht; cbn [negb].
      + destruct (startsWith line "#") eqn:Hh.
        * rewrite filter_cons_True by (unfold isHeading; by rewrite Hh).
          rewrite parseLines_acc.
          destruct (IH (S i) (Some (newQuestion line))) as [IHt IHf];
            [by intros q [= <-] |].
          split.
          { by rewrite fmap_app, IHt. }
          apply Forall_app. split; [| done].
          destruct currentQuestion as [q |]; cbn; [| done].
          constructor; [by apply Htype | done].
        * rewrite filter_cons_False by (unfold isHeading; rewrite Hh; intros []).
          destruct currentQuestion as [q |]; [| by apply IH].
          destruct (startsWith line "@").
          { destruct (IH (S i) (Some (setImage line q))) as [IHt IHf];
              [intros q' [= <-]; cbn; by apply Htype |]. done. }
          destruct (startsWith line "+" || startsWith line "-").
          { destruct (IH (S i) (Some (pushOption (clock i) line q)))
              as [IHt IHf]; [intros q' [= <-]; cbn; by apply Htype |]. done. }
          by apply IH.
      + rewrite filter_cons_False.
        * by apply IH.
        * unfold isHeading. intros Hh%Is_true_true.
          apply startsWith_truthy in Hh. congruence. }
  destruct (Hgen 0%nat None) as [Htexts Htypes]; [done |].
  cbn in Htexts. split_and!; try done.
  - by rewrite <- (length_fmap pq_text), Htexts, length_fmap.
  - intros Hnone. rewrite Hnone in Htexts.
    by apply fmap_nil_inv in Htexts.
Qed.

(** X13: the questions of a file are parsed one after the other.  The
    result of the loop on lines that contain a heading is the result on
    the lines before that heading followed by the result, from no
    question at all, on the lines from that heading on: what precedes a
    heading has no effect on the question it opens and on those after
    it. *)
Theorem parseLines_at_heading (clock : nat -> Z) (i : nat)
    (before : list string) (heading : string) (after : list string)
    (questions : list ParsedQuestion) (currentQuestion : option ParsedQuestion) :
  isHeading heading = true ->
  parseLines clock i (before ++ heading :: after) questions currentQuestion
  = parseLines clock i before questions currentQuestion
    ++ parseLines clock (i + length before) (heading :: after) [] None.
Proof.
  intros Hh. revert i questions currentQuestion.
  induction before as [| line rest IH]; intros i questions currentQuestion.
  - cbn [app length parseLines]. rewrite Nat.add_0_r.
    unfold isHeading in Hh. rewrite Hh, (startsWith_truthy _ _ Hh).
    cbn [negb pushCurrent]. apply parseLines_acc.
  - cbn [app length parseLines]. rewrite Nat.add_succ_r, <- Nat.add_succ_l.
    destruct (negb (truthy line)); [apply IH |].
    destruct (startsWith line "#"); [apply IH |].
    destruct currentQuestion as [q |]; [| apply IH].
    destruct (startsWith line "@"); [apply IH |].
    destruct (startsWith line "+" || startsWith line "-"); apply IH.
Qed.

Lemma parseLines_at_heading_witness :
  parseLines (fun _ => 7) 0 ["+ stray"; "# One"; "+ a"; "# Two"; "- b"] [] None
  = parseLines (fun _ => 7) 0 ["+ stray"; "# One"; "+ a"] [] None
    ++ parseLines (fun _ => 7) 3 ["# Two"; "- b"] [] None.
Proof.
  exact (parseLines_at_heading (fun _ => 7) 0 ["+ stray"; "# One"; "+ a"]
           "# Two" ["- b"] [] None eq_refl).
Defined.

Lemma parseTestFile_headings_witness :
  parseTestFile (fun _ => 7) "+ an option without a question
- another one" = [].
Proof.
  apply (parseTestFile_headings (fun _ => 7)). reflexivity.
Defined.

Lemma digits_all_digits (fuel : nat) (n : Z) :
  forallb isDigit (digits fuel n) = true.
Proof.
  revert n. induction fuel as [| fuel IH]; intros n; [done |].
  assert (Hmod : 0 <= n mod 10 < 10) by (apply Z.mod_pos_bound; lia).
  destruct (JsStringFacts.digit_char (n mod 10) Hmod) as [Hd _].
  cbn [digits]. destruct (n <? 10).
  - cbn. by rewrite Hd.
  - rewrite forallb_app, IH. cbn. by rewrite Hd.
Qed.

Lemma list_ascii_of_string_app (a b : string) :
  list_ascii_of_string (a ++ b)%string
  = list_ascii_of_string a ++ list_ascii_of_string b.
Proof. induction a as [| c a IH]; [done |]. cbn. by rewrite <- IH. Qed.

(** A list is cut in one way only at the first occurrence of an
    element. *)
Lemma split_at_first {A} (x : A) (l1 l2 r1 r2 : list A) :
  x ∉ l1 -> x ∉ l2 -> l1 ++ x :: r1 = l2 ++ x :: r2 -> l1 = l2 /\ r1 = r2.
Proof.
  revert l2. induction l1 as [| y l1 IH]; intros [| z l2] H1 H2 Heq; cbn in Heq.
  - by injection Heq as ->.
  - injection Heq as -> _. exfalso. apply H2, list_elem_of_here.
  - injection Heq as -> _. exfalso. apply H1, list_elem_of_here.
  - injection Heq as -> Heq.
    apply not_elem_of_cons in H1 as [_ H1].
    apply not_elem_of_cons in H2 as [_ H2].
    destruct (IH l2 H1 H2 Heq) as [-> ->]. done.
Qed.

Lemma dash_not_digit (ds : list ascii) :
  forallb isDigit ds = true -> "-"%char ∉ ds.
Proof.
  intros Hd Hin. rewrite forallb_forall in Hd.
  apply list_elem_of_In in Hin. by apply Hd in Hin.
Qed.

(** The identifier of an option determines its index. *)
Lemma option_id_index (now1 now2 : Z) (k1 k2 : nat) :
  ("option-" ++ Number_toString now1 ++ "-" ++ Number_toString (Z.of_nat k1))%string
  = ("option-" ++ Number_toString now2 ++ "-"
     ++ Number_toString (Z.of_nat k2))%string ->
  k1 = k2.
Proof.
  intros Heq. apply (f_equal list_ascii_of_string) in Heq.
  rewrite !list_ascii_of_string_app in Heq.
  apply app_inv_head in Heq.
  change (list_ascii_of_string "-") with ["-"%char] in Heq. cbn [app] in Heq.
  unfold Number_toString at 1 3 in Heq.
  rewrite !list_ascii_of_string_of_list_ascii in Heq.
  apply split_at_first in Heq as [_ Heq];
    [| apply dash_not_digit, digits_all_digits..].
  destruct (JsStringFacts.Number_toString_spec (Z.of_nat k1) ltac:(lia))
    as [_ H1].
  destruct (JsStringFacts.Number_toString_spec (Z.of_nat k2) ltac:(lia))
    as [_ H2].
  rewrite Heq in H1. lia.
Qed.

Lemma numbered_NoDup (options : list ParsedOption) :
  numbered options -> NoDup (po_id <$> options).
Proof.
  intros Hnum. apply NoDup_alt. intros i j id Hi Hj.
  rewrite list_lookup_fmap in Hi, Hj.
  destruct (options !! i) as [o1 |] eqn:Ho1; [| done].
  destruct (options !! j) as [o2 |] eqn:Ho2; [| done].
  injection Hi as <-. injection Hj as Hj.
  destruct (Hnum i o1 Ho1) as [now1 Hid1].
  destruct (Hnum j o2 Ho2) as [now2 Hid2].
  rewrite Hid1, Hid2 in Hj. symmetry in Hj. by apply option_id_index in Hj.
Qed.

Lemma numbered_pushOption (now : Z) (line : string) (q : ParsedQuestion) :
  numbered (pq_options q) -> numbered (pq_options (pushOption now line q)).
Proof.
  intros Hnum k o. cbn [pq_options pushOption].
  intros [Hk | [Hk Ho]]%lookup_app_Some; [by apply Hnum |].
  apply list_lookup_singleton_Some in Ho as [Hz <-].
  exists now. cbn. by replace k with (length (pq_options q)) by lia.
Qed.

Lemma lastImage_cons_image (line : string) (lines : list string) :
  startsWith line "@" = true ->
  lastImage (line :: lines)
  = match lastImage lines with
    | Some image => Some image
    | None => Some (trim (substring1 line))
    end.
Proof.
  intros Hi. unfold lastImage.
  rewrite filter_cons_True by by rewrite Hi.
  destruct (filter _ lines) as [| l ls]; [done |].
  change (last (line :: l :: ls)) with (last (l :: ls)).
  destruct (last (l :: ls)) eqn:Hlast; [done |].
  by apply last_None in Hlast.
Qed.

Lemma lastImage_cons_other (line : string) (lines : list string) :
  startsWith line "@" = false -> lastImage (line :: lines) = lastImage lines.
Proof.
  intros Hi. unfold lastImage.
  by rewrite filter_cons_False by (rewrite Hi; intros []).
Qed.

(** The question that the lines after a heading make of the current
    one. *)
Lemma parseLines_block (clock : nat -> Z) (i : nat) (body : list string)
    (q : ParsedQuestion) :
  Forall (fun line => isHeading line = false) body ->
  exists q',
    parseLines clock i body [] (Some q) = [q']
    /\ pq_text q' = pq_text q
    /\ optionContent <$> pq_options q'
       = (optionContent <$> pq_options q)
         ++ (optionOf <$> filter isOptionLine body)
    /\ pq_image q'
       = match lastImage body with
         | Some image => Some image
         | None => pq_image q
         end
    /\ (numbered (pq_options q) -> numbered (pq_options q')).
Proof.
  intros Hbody. revert i q.
  induction Hbody as [| line rest Hline _ IH]; intros i q.
  - exists q. cbn. by rewrite app_nil_r.
  - cbn [parseLines]. unfold isHeading in Hline. rewrite Hline.
    destruct (truthy line) eqn:Ht; cbn [negb].
    + destruct (startsWith line "@") eqn:Hi.
      * destruct (IH (S i) (setImage line q)) as (q' & -> & Ht' & Ho & Him & Hn).
        exists q'. split_and!; try done.
        -- rewrite Ho. unfold isOptionLine.
           rewrite filter_cons_False; [done |].
           rewrite (startsWith_other _ _ "+" Hi) by done.
           rewrite (startsWith_other _ _ "-" Hi) by done. intros [].
        -- rewrite Him, (lastImage_cons_image _ _ Hi).
           by destruct (lastImage rest).
      * rewrite (lastImage_cons_other _ _ Hi).
        destruct (startsWith line "+" || startsWith line "-") eqn:Hopt.
        -- destruct (IH (S i) (pushOption (clock i) line q))
             as (q' & -> & Ht' & Ho & Him & Hn).
           exists q'. split_and!; try done.
           ++ rewrite Ho. unfold isOptionLine.
              rewrite filter_cons_True by by rewrite Hopt.
              cbn [pushOption pq_options]. rewrite fmap_app, <- app_assoc.
              done.
           ++ intros Hnum. by apply Hn, numbered_pushOption.
        -- destruct (IH (S i) q) as (q' & -> & Ht' & Ho & Him & Hn).
           exists q'. split_and!; try done.
           rewrite Ho. unfold isOptionLine.
           by rewrite filter_cons_False by (rewrite Hopt; intros []).
    + assert (Hi : startsWith line "@" = false) by by destruct line.
      assert (Hopt : isOptionLine line = false) by by destruct line.
      rewrite (lastImage_cons_other _ _ Hi).
      destruct (IH (S i) q) as (q' & -> & Ht' & Ho & Him & Hn).
      exists q'. split_and!; try done.
      rewrite Ho. by rewrite filter_cons_False by (rewrite Hopt; intros []).
Qed.

(** X14: one question of an imported file.  A heading followed by lines
    none of which is a heading gives one question: its text is the text
    of the heading; its options are, in order, the lines that start with
    [+] or [-], each with its trimmed text and flagged correct exactly
    when it starts with [+]; its image is that of the last line that
    starts with [@], if any; and no two of its options have the same
    identifier. *)
Theorem parseLines_one_question (clock : nat -> Z) (i : nat)
    (heading : string) (body : list string) :
  isHeading heading = true ->
  Forall (fun line => isHeading line = false) body ->
  exists q,
    parseLines clock i (heading :: body) [] None = [q]
    /\ pq_text q = trim (substring1 heading)
    /\ optionContent <$> pq_options q = optionOf <$> filter isOptionLine body
    /\ pq_image q = lastImage body
    /\ NoDup (po_id <$> pq_options q).
Proof.
  intros Hh Hbody. cbn [parseLines].
  unfold isHeading in Hh. rewrite Hh, (startsWith_truthy _ _ Hh).
  cbn [negb pushCurrent].
  destruct (parseLines_block clock (S i) body (newQuestion heading) Hbody)
    as (q & -> & Ht & Ho & Him & Hn).
  exists q. split_and!; try done.
  - rewrite Him. by destruct (lastImage body).
  - apply numbered_NoDup, Hn. by intros k o Hk.
Qed.

Lemma parseLines_one_question_witness :
  exists q,
    parseLines (fun _ => 7) 0 ["# Capital of France?"; "+ Paris"; "@map.png";
                               ""; "- Rome"; "+ Lutetia"] [] None = [q]
    /\ optionContent <$> pq_options q
       = [("Paris", true); ("Rome", false); ("Lutetia", true)]
    /\ pq_image q = Some "map.png".
Proof.
  destruct (parseLines_one_question (fun _ => 7) 0 "# Capital of France?"
              ["+ Paris"; "@map.png"; ""; "- Rome"; "+ Lutetia"] eq_refl)
    as (q & Hq & _ & Ho & Him & _).
  - by repeat constructor.
  - by exists q.
Defined.

End TestParserFacts.


(** ** Tests and stored results *)

Module TestsFacts.
Import JsString Results ResultsNotions ResultsSamples Tests StoreNotions.
Local Open Scope list_scope.

Lemma withIds_lookup (uuid : nat -> string) (first : nat)
    (questions : list Question) (i : nat) :
  withIds uuid first questions !! i
  = withId (uuid (first + i)%nat) <$> questions !! i.
Proof.
  revert first i. induction questions as [| q rest IH]; intros first i; [done |].
  destruct i as [| i]; cbn.
  - by rewrite Nat.add_0_r.
  - rewrite IH. by rewrite Nat.add_succ_r.
Qed.

Lemma length_withIds (uuid : nat -> string) (first : nat)
    (questions : list Question) :
  length (withIds uuid first questions) = length questions.
Proof.
  revert first. induction questions as [| q rest IH]; intros first; [done |].
  cbn. by rewrite IH.
Qed.

(** [find] returns the only element that satisfies the predicate. *)
Lemma find_only {A} (f : A -> bool) (l : list A) (i : nat) (x : A) :
  l !! i = Some x -> f x = true ->
  (forall j y, l !! j = Some y -> f y = true -> j = i) ->
  find f l = Some x.
Proof.
  revert i. induction l as [| y l IH]; intros i Hi Hx Honly; [done |].
  cbn. destruct (f y) eqn:Hy.
  - specialize (Honly 0%nat y eq_refl Hy). subst i. by injection Hi as ->.
  - destruct i as [| i]; [injection Hi as ->; congruence |].
    apply (IH i Hi Hx). intros j z Hj Hz.
    specialize (Honly (S j) z Hj Hz). lia.
Qed.

(** What a successful [POST /api/tests] stores. *)
Lemma createTest_stored title duration questions uuid tests test tests' :
  createTest title duration questions uuid tests = (Stored test, tests') ->
  exists qs,
    questions = Some qs
    /\ test = {| t_id := VStr (uuid 0%nat); t_questions := withIds uuid 1 qs |}
    /\ tests' = tests ++ [test].
Proof.
  unfold createTest. destruct questions as [qs |]; [| done].
  destruct (negb (truthy title) || negb (truthy duration)
            || (length qs =? 0)%nat); [done |].
  intros [= <- <-]. eauto.
Qed.

(** X15: the identifiers of the questions of a new test.  [POST
    /api/tests] keeps the [id] of a question that was sent with one.
    When the questions are sent without [id] and the identifiers drawn
    are pairwise distinct, every question of the test stored is the
    question that grading finds for an answer that carries its
    identifier; the test is appended to [tests.json] and has as many
    questions as were sent. *)
Theorem created_questions_are_found
    (title duration : value) (questions : list Question)
    (uuid : nat -> string) (tests tests' : list Test) (test : Test) :
  createTest title duration (Some questions) uuid tests = (Stored test, tests') ->
  tests' = tests ++ [test]
  /\ length (t_questions test) = length questions
  /\ (forall i q, questions !! i = Some q -> q_id q <> VUndefined ->
        t_questions test !! i = Some q)
  /\ ((forall q, q ∈ questions -> q_id q = VUndefined) ->
      (forall i j, uuid i = uuid j -> i = j) ->
      forall i q answer,
        t_questions test !! i = Some q ->
        a_questionId answer = q_id q ->
        findQuestion test answer = Some q).
Proof.
  intros Hrun. apply createTest_stored in Hrun as (qs & [= <-] & -> & ->).
  cbn [t_questions]. split_and!.
  - done.
  - apply length_withIds.
  - intros i q Hi Hid. rewrite withIds_lookup, Hi. cbn. f_equal.
    unfold withId. by destruct (q_id q).
  - intros Hnone Hinj.
    assert (Hids : forall j y, withIds uuid 1 questions !! j = Some y ->
              q_id y = VStr (uuid (S j))).
    { intros j y Hj. rewrite withIds_lookup in Hj.
      destruct (questions !! j) as [q0 |] eqn:Hq0; [| done].
      injection Hj as <-. unfold withId.
      by rewrite (Hnone q0 (list_elem_of_lookup_2 _ _ _ Hq0)). }
    intros i q answer Hi Hanswer. unfold findQuestion. cbn [t_questions].
    apply (find_only _ _ i); [done | |].
    + rewrite Hanswer, (Hids i q Hi). cbn. by apply bool_decide_eq_true_2.
    + intros j y Hj Heq. rewrite Hanswer, (Hids i q Hi), (Hids j y Hj) in Heq.
      cbn in Heq. apply bool_decide_eq_true_1 in Heq.
      apply Hinj in Heq. lia.
Qed.

Lemma created_questions_are_found_witness :
  exists test tests',
    createTest (VStr "Quiz") (VNum 30)
      (Some [{| q_id := VUndefined; q_type := VStr "text"; q_options := None;
                q_correctAnswer := VStr "Paris" |};
             {| q_id := VStr "mine"; q_type := VStr "text"; q_options := None;
                q_correctAnswer := VStr "Rome" |}])
      (fun i => Number_toString (Z.of_nat i)) [] = (Stored test, tests')
    /\ t_questions test !! 1%nat
       = Some {| q_id := VStr "mine"; q_type := VStr "text"; q_options := None;
                 q_correctAnswer := VStr "Rome" |}.
Proof.
  eexists _, _. split; [reflexivity |].
  refine (proj1 (proj2 (proj2
            (created_questions_are_found (VStr "Quiz") (VNum 30)
               [{| q_id := VUndefined; q_type := VStr "text"; q_options := None;
                   q_correctAnswer := VStr "Paris" |};
                {| q_id := VStr "mine"; q_type := VStr "text"; q_options := None;
                   q_correctAnswer := VStr "Rome" |}]
               (fun i => Number_toString (Z.of_nat i)) [] _ _ eq_refl)))
            1%nat _ eq_refl _).
  done.
Defined.

Lemma filter_length_eq {A} (P : A -> Prop) `{forall x, Decision (P x)}
    (l : list A) :
  length (filter P l) = length l <-> Forall P l.
Proof.
  induction l as [| x l IH]; [by split |].
  destruct (decide (P x)) as [Hx | Hx].
  - rewrite filter_cons_True by done. cbn. rewrite Forall_cons.
    split; [intros [= Hl]; split; [done | by apply IH] |].
    intros [_ Hl]. f_equal. by apply IH.
  - rewrite filter_cons_False by done. rewrite Forall_cons. split.
    + intros Hl. pose proof (length_filter P l). cbn in Hl. lia.
    + by intros [? _].
Qed.

(** X16: deleting a test.  [DELETE /api/tests/:id] answers 404 and
    leaves both collections as they are exactly when no stored test has
    the identifier, even when results refer to it; otherwise it keeps, in
    order, the tests that do not have the identifier and the results that
    do not refer to it, and nothing else. *)
Theorem deleteTest_outcomes
    (id : string) (tests : list Test) (results : list Result) :
  let run := deleteTest id tests results in
  ((forall t, t ∈ tests -> strict_eq (t_id t) (VStr id) = false)
   <-> run = (Refused 404 "Test topilmadi", tests, results))
  /\ ((exists t, t ∈ tests /\ strict_eq (t_id t) (VStr id) = true) ->
      exists message tests' results',
        run = (Deleted message, tests', results')
        /\ (forall t, t ∈ tests'
              <-> t ∈ tests /\ strict_eq (t_id t) (VStr id) = false)
        /\ (forall r, r ∈ results'
              <-> r ∈ results /\ strict_eq (r_testId r) (VStr id) = false)
        /\ tests' `sublist_of` tests /\ results' `sublist_of` results).
Proof.
  cbn zeta. unfold deleteTest.
  assert (Hall : Forall (fun t => negb (strict_eq (t_id t) (VStr id))) tests
                 <-> forall t, t ∈ tests -> strict_eq (t_id t) (VStr id) = false).
  { rewrite Forall_forall.
    split; intros H t Ht; specialize (H t Ht);
      by destruct (strict_eq (t_id t) (VStr id)). }
  destruct (Nat.eqb_spec
              (length (filter (fun t => negb (strict_eq (t_id t) (VStr id)))
                         tests))
              (length tests)) as [Heq | Hne].
  - apply filter_length_eq in Heq. split.
    + split; [done |]. intros _. exact (proj1 Hall Heq).
    + intros (t & Ht & Hid). by rewrite (proj1 Hall Heq t Ht) in Hid.
  - split.
    + split; [| done]. intros Hnone.
      pose proof (proj2 (filter_length_eq _ _) (proj2 Hall Hnone)). done.
    + intros _. eexists _, _, _. split; [reflexivity |]. split_and!.
      * intros t. rewrite list_elem_of_filter.
        destruct (strict_eq (t_id t) (VStr id)); cbn; intuition congruence.
      * intros r. rewrite list_elem_of_filter.
        destruct (strict_eq (r_testId r) (VStr id)); cbn; intuition congruence.
      * apply sublist_filter.
      * apply sublist_filter.
Qed.

Lemma deleteTest_outcomes_witness :
  exists message,
    deleteTest "T2" [quiz; brokenQuiz] [] = (Deleted message, [quiz], []).
Proof.
  destruct (deleteTest_outcomes "T2" [quiz; brokenQuiz] []) as [_ Hdeleted].
  destruct Hdeleted as (message & tests' & results' & Hrun & _).
  - exists brokenQuiz. split; [| reflexivity].
    apply list_elem_of_further, list_elem_of_here.
  - exists message. rewrite Hrun. vm_compute in Hrun. by injection Hrun as <- <- <-.
Defined.

(** X17: results refer to stored tests.  If every stored result refers
    to a stored test, this is still so after a submission to [POST
    /api/results], whatever its outcome, and after a request to [DELETE
    /api/tests/:id], whatever its outcome. *)
Theorem results_refer_to_tests
    (tests : list Test) (results : list Result) :
  consistent tests results ->
  (forall testId answers userId uuid now,
     consistent tests
       (postResults testId answers userId uuid now tests results).2)
  /\ (forall id,
        consistent (deleteTest id tests results).1.2
                   (deleteTest id tests results).2).
Proof.
  intros Hcons. split.
  - intros testId answers userId uuid now. unfold postResults.
    destruct answers as [answers |]; [| done].
    destruct (negb (truthy testId)); [done |].
    destruct (find _ tests) as [test |] eqn:Hfind; [| done].
    destruct (Grade test answers) as [e | g]; [done |]. cbn [snd].
    intros r [Hr | ->%list_elem_of_singleton]%elem_of_app; [by apply Hcons |].
    apply find_some in Hfind as [Hin Heq]. exists test.
    split; [by apply list_elem_of_In | done].
  - intros id. unfold deleteTest.
    destruct (_ =? _)%nat; [done |]. cbn [fst snd].
    intros r [Hkeep Hr]%list_elem_of_filter.
    destruct (Hcons r Hr) as (t & Ht & Heq). exists t. split; [| done].
    apply list_elem_of_filter. split; [| done].
    apply GradeAnswerFacts.strict_eq_eq in Heq. rewrite Heq.
    by destruct (strict_eq (r_testId r) (VStr id)).
Qed.

Lemma results_refer_to_tests_witness :
  consistent [quiz]
    (postResults (VStr "T1") (Some [choose "q1" "A"]) "U1" "R1" 1000 [quiz] []).2.
Proof.
  apply (results_refer_to_tests [quiz] []).
  intros r Hr. by apply elem_of_nil in Hr.
Defined.

End TestsFacts.


(** ** Reading results, selecting questions, bounds of the score *)

Module MoreFacts.
Import JsString Auth Results ResultsNotions ResultsSamples StoreNotions.
Import ResultsView TestParser.
Local Open Scope list_scope.

Section View.

Variable title : Test -> value.

(** X18: a user who is not an administrator is shown no result of
    another user.  Every entry of the list replied to such a user by
    [GET /api/results] is made from a stored result of that user, and
    carries neither a user identifier nor a user name; there is one entry
    for each of the user's results; and [GET /api/results/:id] replies
    with a result only if it is a result of that user, and with status
    403 when the first stored result of that identifier belongs to
    someone else. *)
Theorem student_sees_own_results
    (role userId : string)
    (results : list Result) (tests : list Test) (users : list User) :
  role <> "admin" ->
  (forall e, e ∈ listResults title role userId results tests users ->
     exists r, r ∈ results /\ r_userId r = userId /\ e_id e = r_id r
               /\ e_score e = r_score r
               /\ e_userId e = None /\ e_userName e = None)
  /\ length (listResults title role userId results tests users)
     = length (filter (fun r => r_userId r = userId) results)
  /\ (forall id detail,
        getResult title id role userId results tests users = Found detail ->
        d_result detail ∈ results
        /\ r_id (d_result detail) = id
        /\ r_userId (d_result detail) = userId)
  /\ (forall id r,
        find (fun r => bool_decide (r_id r = id)) results = Some r ->
        r_userId r <> userId ->
        getResult title id role userId results tests users
        = Refused 403 "Siz bu natijani ko'rish huquqiga ega emassiz").
Proof.
  intros Hrole. unfold listResults, getResult.
  rewrite (bool_decide_eq_false_2 _ Hrole). cbn [negb andb].
  split_and!.
  - intros e (r & -> & [Hown Hr]%list_elem_of_filter)%list_elem_of_fmap.
    apply bool_decide_spec in Hown. exists r. by cbn.
  - rewrite length_fmap. f_equal. apply list_filter_iff. intros r.
    apply bool_decide_spec.
  - intros id detail.
    destruct (find _ results) as [r |] eqn:Hfind; [| done].
    apply find_some in Hfind as [Hin Hid%bool_decide_eq_true_1].
    destruct (bool_decide (r_userId r = userId)) eqn:Hown; [| done].
    cbn [negb]. intros [= <-]. cbn [d_result].
    apply bool_decide_eq_true_1 in Hown. by rewrite list_elem_of_In.
  - intros id r -> Hother. by rewrite (bool_decide_eq_false_2 _ Hother).
Qed.

End View.

Lemma student_sees_own_results_witness :
  listResults (fun _ => VStr "Quiz") "student" "U1"
    [{| r_id := "R1"; r_testId := VStr "T1"; r_userId := "U2";
        r_answers := []; r_score := NaN; r_correctCount := 0;
        r_totalQuestions := 0; r_submittedAt := 0 |}] [quiz] []
  = [].
Proof.
  apply length_zero_iff_nil.
  rewrite (proj1 (proj2 (student_sees_own_results (fun _ => VStr "Quiz")
                           "student" "U1" _ [quiz] [] ltac:(done)))).
  reflexivity.
Defined.

Section Select.

Context {A : Type}.
Variable shuffle : list A -> list A.

(** X19: [selectRandomQuestions], when the sort with the random
    comparison leaves a rearrangement of the array: the result has
    [count] questions, or all of them when there are no more than
    [count]; each question of the result is a question of the pool, taken
    no more often than it is in the pool; and a pool of no more than
    [count] questions is returned as it is, in its order. *)
Theorem selectRandomQuestions_spec (questions : list A) (count : nat) :
  (forall l, shuffle l ≡ₚ l) ->
  length (selectRandomQuestions shuffle questions count)
  = Nat.min count (length questions)
  /\ selectRandomQuestions shuffle questions count ⊆+ questions
  /\ ((length questions <= count)%nat ->
      selectRandomQuestions shuffle questions count = questions).
Proof.
  intros Hperm. unfold selectRandomQuestions.
  destruct (Nat.leb_spec (length questions) count) as [Hle | Hlt].
  - split_and!; [lia | done | done].
  - split_and!.
    + rewrite length_take, (Permutation_length (Hperm questions)). lia.
    + rewrite <- (Hperm questions) at 2.
      apply sublist_submseteq, sublist_take.
    + lia.
Qed.

End Select.

Lemma selectRandomQuestions_spec_witness :
  length (selectRandomQuestions (@rev nat) [1; 2; 3; 4]%nat 2) = 2%nat.
Proof.
  rewrite (proj1 (selectRandomQuestions_spec (@rev nat) [1; 2; 3; 4]%nat 2
                    (fun l => Permutation_sym (Permutation_rev l)))).
  reflexivity.
Defined.






(** X21: a multiple-choice question is graded on its first option
    flagged correct.  An answer matched to a multiple-choice question is
    correct exactly when its [optionId] is the identifier of the first
    option of the question that is flagged correct: an option flagged
    correct that comes after it is not accepted unless it has the same
    identifier. *)
Theorem multiple_choice_grading
    (test : Test) (question : Question) (answer : Answer)
    (before after : list Choice) (correctOption : Choice) :
  findQuestion test answer = Some question ->
  q_type question = VStr "multiple-choice" ->
  q_options question = Some (before ++ correctOption :: after) ->
  Forall (fun o => o_correct o = false) before ->
  o_correct correctOption = true ->
  gradeAnswer test answer
  = inr {| ga_answer := answer;
           ga_correct := strict_eq (a_optionId answer) (o_id correctOption) |}.
Proof.
  intros Hfind Htype Hopts Hbefore Hcorrect.
  rewrite (GradeAnswerFacts.gradeAnswer_found _ _ _ Hfind).
  unfold gradeQuestion. rewrite Htype, Hopts.
  assert (Hfirst : find (fun o => o_correct o) (before ++ correctOption :: after)
                   = Some correctOption).
  { clear -Hbefore Hcorrect.
    induction Hbefore as [| o before Ho _ IH]; cbn.
    - by rewrite Hcorrect.
    - by rewrite Ho. }
  cbn [strict_eq]. rewrite bool_decide_eq_true_2 by done. by rewrite Hfirst.
Qed.

Lemma multiple_choice_grading_witness :
  gradeAnswer
    {| t_id := VStr "T3";
       t_questions := [{| q_id := VStr "q1"; q_type := VStr "multiple-choice";
                          q_options := Some [optC; optA; optB];
                          q_correctAnswer := VUndefined |}] |}
    (choose "q1" "B")
  = inr {| ga_answer := choose "q1" "B"; ga_correct := false |}.
Proof.
  apply (multiple_choice_grading
           {| t_id := VStr "T3";
              t_questions := [{| q_id := VStr "q1";
                                 q_type := VStr "multiple-choice";
                                 q_options := Some [optC; optA; optB];
                                 q_correctAnswer := VUndefined |}] |}
           {| q_id := VStr "q1"; q_type := VStr "multiple-choice";
              q_options := Some [optC; optA; optB];
              q_correctAnswer := VUndefined |}
           (choose "q1" "B") [optC] [optB] optA);
    try reflexivity.
  by repeat constructor.
Defined.

End MoreFacts.
